(** * Pattern matching on DNA sequences: brute force and Karp-Rabin

    Shallow embedding of the matching core of [patternMatching.c]
    ([bruteForceSearch], [calculateHash], [rehash], [verifyMatch],
    [karpRabinSearch]) and of its input layer ([readSequence],
    [printUsage], [main]), and the properties of its specification.

    Conventions of the embedding.
    - A value of a C integer type is a [Z]; the arithmetic of [int] and of
      [long long] is written with its wrap-around ([int_add], [ll_mul], ...).
      [int] is 32 bits wide and [long long] 64 bits wide.
    - The operator [%] of C truncates towards zero: it is [Z.rem].
    - A [const char*] argument is the list of the [char] values stored from
      the pointer on; [p + k] is [skipn k p] and [p[k]] is [char_at p k].
      Whether plain [char] is signed is implementation-defined, so a [char]
      value lies in [-128, 127] (signed) or in [0, 255] (unsigned).
    - A file is the list of the values [fgetc] returns before [EOF], or
      [None] when [fopen] fails; what is printed is the list of the strings
      of the calls of [printf], in order.
    - A counting [for] loop is a structural recursion over its trip count,
      which is exact as long as the loop counter does not overflow, i.e.
      [textLen - patternLen < INT_MAX]. *)

From Stdlib Require Import String Ascii DecimalString.
From Stdlib Require Import ZArith List Lia Bool Znumtheory.
Import ListNotations.

Local Open Scope Z_scope.

(** ** Machine integers *)

Module CArith.

Definition wrap (w z : Z) : Z := (z + 2 ^ (w - 1)) mod 2 ^ w - 2 ^ (w - 1).

Definition INT_MAX : Z := 2147483647.
Definition INT_MIN : Z := -2147483648.
Definition LLONG_MAX : Z := 9223372036854775807.
Definition LLONG_MIN : Z := -9223372036854775808.

Definition int_wrap : Z -> Z := wrap 32.
Definition ll_wrap : Z -> Z := wrap 64.

Definition int_add (a b : Z) : Z := int_wrap (a + b).
Definition int_sub (a b : Z) : Z := int_wrap (a - b).

Definition ll_add (a b : Z) : Z := ll_wrap (a + b).
Definition ll_sub (a b : Z) : Z := ll_wrap (a - b).
Definition ll_mul (a b : Z) : Z := ll_wrap (a * b).
(** [a % b] on [long long], for [b <> 0] and [(a, b) <> (LLONG_MIN, -1)]. *)
Definition ll_rem (a b : Z) : Z := Z.rem a b.

(** Values of plain [char]. *)
Definition SCHAR_MIN : Z := -128.
Definition SCHAR_MAX : Z := 127.
Definition UCHAR_MAX : Z := 255.

Definition signed_char (c : Z) : Prop := SCHAR_MIN <= c <= SCHAR_MAX.
Definition unsigned_char (c : Z) : Prop := 0 <= c <= UCHAR_MAX.

End CArith.

Import CArith.

(** ** Buffers *)

(** [buf[k]]; the model reads 0 outside the buffer (undefined in C). *)
Definition char_at (buf : list Z) (k : Z) : Z := nth (Z.to_nat k) buf 0.

(** The [char] values of a string literal of ASCII characters. *)
Fixpoint c_str (s : string) : list Z :=
  match s with
  | EmptyString => []
  | String a s' => Z.of_nat (nat_of_ascii a) :: c_str s'
  end.

(** Every symbol of the buffer has a non-negative character code: all of
    them where plain [char] is unsigned, the codes 0..127 (ASCII, so the
    DNA alphabet) where it is signed. *)
Definition nonneg_chars (buf : list Z) : Prop := Forall unsigned_char buf.

(** The symbols [readSequence] lets through: 'A', 'T', 'C' and 'G'. *)
Definition dna_symbol (c : Z) : Prop := c = 65 \/ c = 84 \/ c = 67 \/ c = 71.

(** ** The program *)

(** [#define MOD INT_MAX] *)
Definition MOD : Z := INT_MAX.

(** *** bruteForceSearch *)

(** [while (j < patternLen && text[i + j] == pattern[j]) j++;] started at
    [j], with [fuel] iterations left: [j] grows by one from 0 and the loop
    stops at [patternLen], so [patternLen] iterations exhaust it. *)
Fixpoint bf_while (text pattern : list Z) (i patternLen : Z)
    (fuel : nat) (j : Z) : Z :=
  match fuel with
  | O => j
  | S fuel' =>
      if (j <? patternLen)
         && (char_at text (int_add i j) =? char_at pattern j)
      then bf_while text pattern i patternLen fuel' (int_add j 1)
      else j
  end.

(** The body of the outer loop, [n] iterations from offset [i]. *)
Fixpoint bf_for (text pattern : list Z) (patternLen : Z)
    (n : nat) (i matches : Z) : Z :=
  match n with
  | O => matches
  | S n' =>
      let j := bf_while text pattern i patternLen (Z.to_nat patternLen) 0 in
      let matches := if j =? patternLen then int_add matches 1 else matches in
      bf_for text pattern patternLen n' (int_add i 1) matches
  end.

(** [for (i = 0; i <= textLen - patternLen; i++)] runs
    [textLen - patternLen + 1] times, or not at all. *)
Definition bruteForceSearch (text pattern : list Z)
    (textLen patternLen : Z) : Z :=
  bf_for text pattern patternLen
    (Z.to_nat (int_sub textLen patternLen + 1)) 0 0.

(** *** calculateHash *)

(** [for (i = len - 1; i >= 0; i--)], with [n = i + 1] iterations left. *)
Fixpoint calculateHash_loop (str : list Z) (n : nat) (hash base : Z) : Z :=
  match n with
  | O => hash
  | S n' =>
      let i := Z.of_nat n' in
      let hash :=
        ll_rem (ll_add hash (ll_rem (ll_mul (char_at str i) base) MOD)) MOD in
      let base := if 0 <? i then ll_rem (ll_mul base 2) MOD else base in
      calculateHash_loop str n' hash base
  end.

Definition calculateHash (str : list Z) (len : Z) : Z :=
  calculateHash_loop str (Z.to_nat len) 0 1.

(** *** rehash *)

(** [for (i = 0; i < patternLen - 1; i++) powerOf2 = (powerOf2 * 2) % MOD;] *)
Fixpoint rehash_pow (n : nat) (powerOf2 : Z) : Z :=
  match n with
  | O => powerOf2
  | S n' => rehash_pow n' (ll_rem (ll_mul powerOf2 2) MOD)
  end.

(** The value of [newHash] after the modular subtraction and its fix-up
    (lines 133-136). *)
Definition rehash_sub (oldChar oldHash patternLen : Z) : Z :=
  let powerOf2 := rehash_pow (Z.to_nat (int_sub patternLen 1)) 1 in
  let newHash := ll_sub oldHash (ll_rem (ll_mul oldChar powerOf2) MOD) in
  if newHash <? 0 then ll_add newHash MOD else newHash.

Definition rehash (oldChar oldHash newChar patternLen : Z) : Z :=
  let newHash := rehash_sub oldChar oldHash patternLen in
  ll_rem (ll_add (ll_mul newHash 2) newChar) MOD.

(** *** verifyMatch *)

Fixpoint verifyMatch_loop (text pattern : list Z) (pos : Z)
    (n : nat) (i : Z) : Z :=
  match n with
  | O => 1
  | S n' =>
      if negb (char_at text (int_add pos i) =? char_at pattern i)
      then 0
      else verifyMatch_loop text pattern pos n' (int_add i 1)
  end.

Definition verifyMatch (text pattern : list Z) (pos patternLen : Z) : Z :=
  verifyMatch_loop text pattern pos (Z.to_nat patternLen) 0.

(** *** karpRabinSearch *)

(** [patternHash == textHash && verifyMatch(text, pattern, i, patternLen)] *)
Definition kr_hit (text pattern : list Z) (patternHash textHash : Z)
    (i patternLen : Z) : bool :=
  (patternHash =? textHash)
  && negb (verifyMatch text pattern i patternLen =? 0).

(** The rolling loop, [n] iterations from offset [i]. *)
Fixpoint kr_for (text pattern : list Z) (patternLen patternHash : Z)
    (n : nat) (i textHash matches : Z) : Z :=
  match n with
  | O => matches
  | S n' =>
      let textHash :=
        rehash (char_at text (int_sub i 1)) textHash
               (char_at text (int_sub (int_add i patternLen) 1)) patternLen in
      let matches :=
        if kr_hit text pattern patternHash textHash i patternLen
        then int_add matches 1 else matches in
      kr_for text pattern patternLen patternHash n' (int_add i 1)
             textHash matches
  end.

(** [for (i = 1; i <= textLen - patternLen; i++)] runs
    [textLen - patternLen] times, or not at all. *)
Definition karpRabinSearch (text pattern : list Z)
    (textLen patternLen : Z) : Z :=
  if patternLen >? textLen then 0
  else
    let patternHash := calculateHash pattern patternLen in
    let textHash := calculateHash text patternLen in
    let matches :=
      if kr_hit text pattern patternHash textHash 0 patternLen
      then int_add 0 1 else 0 in
    kr_for text pattern patternLen patternHash
      (Z.to_nat (int_sub textLen patternLen)) 1 textHash matches.

(** ** Specification-side definitions *)

(** The weighted sum of a window of length [L]:
    the symbol at position [k] has weight [2 ^ (L - 1 - k)]. *)
Definition weighted_sum (str : list Z) (L : Z) : Z :=
  fold_right Z.add 0
    (map (fun k => char_at str (Z.of_nat k) * 2 ^ (L - 1 - Z.of_nat k))
         (seq 0 (Z.to_nat L))).

(** [text[i..i+P)] *)
Definition window (text : list Z) (i P : nat) : list Z :=
  firstn P (skipn i text).

(** The pattern occurs in the text at offset [i]: [text[i..i+P)] equals
    [pattern[0..P)], which is the whole pattern when [P] is its length. *)
Definition occurs_at (text pattern : list Z) (P i : nat) : bool :=
  if list_eq_dec Z.eq_dec (window text i P) (firstn P pattern)
  then true else false.

(** The offsets [i] in [[0, T - P]] at which the pattern occurs. *)
Definition occurrences (text pattern : list Z) (T P : Z) : list nat :=
  filter (occurs_at text pattern (Z.to_nat P)) (seq 0 (Z.to_nat (T - P + 1))).

Definition count_occurrences (text pattern : list Z) (T P : Z) : Z :=
  Z.of_nat (length (occurrences text pattern T P)).

(** The weighted sum of the first [n] symbols, by Horner's rule. *)
Fixpoint horner (str : list Z) (n : nat) : Z :=
  match n with
  | O => 0
  | S n' => 2 * horner str n' + char_at str (Z.of_nat n')
  end.

(** Element-wise comparison of [text[i..i+P)] with [pattern[0..P)]. *)
Definition elemwise (text pattern : list Z) (P : nat) (i : Z) : bool :=
  forallb (fun k => char_at text (i + Z.of_nat k) =? char_at pattern (Z.of_nat k))
          (seq 0 P).

(** Trial division of [p] by [d], [d + 1], ..., [d + n - 1]. *)
Fixpoint no_divisor (p : Z) (n : nat) (d : Z) : bool :=
  match n with
  | O => true
  | S n' => negb (p mod d =? 0) && no_divisor p n' (d + 1)
  end.

(** ** The input layer *)

(** What [fgetc] returns at the end of the file. *)
Definition EOF : Z := -1.

(** The string ["\n"] of C. *)
Definition newline : string := String (ascii_of_nat 10) EmptyString.

(** [#define N 512000] *)
Definition N : Z := 512000.

(** The test of line 43: 'A', 'T', 'C', 'G', 'a', 't', 'c' or 'g'. *)
Definition is_base (ch : Z) : bool :=
  (ch =? 65) || (ch =? 84) || (ch =? 67) || (ch =? 71)
  || (ch =? 97) || (ch =? 116) || (ch =? 99) || (ch =? 103).

(** *** readSequence *)

(** The reading loop. [file] is what is left of the file, the values
    [fgetc] returns before [EOF]; [sequence] holds the cells written so
    far, [sequence[0 .. length)]. *)
Fixpoint readSequence_loop (file sequence : list Z) (maxSize length : Z)
    : list Z * Z :=
  match file with
  | [] => (sequence, length)
  | ch :: file' =>
      if negb (ch =? EOF) && negb (ch =? 10)
         && (length <? int_sub maxSize 1)
      then
        if is_base ch then
          let ch :=
            if (97 <=? ch) && (ch <=? 122)
            then int_add (int_sub ch 97) 65 else ch in
          readSequence_loop file' (sequence ++ [ch]) maxSize
                            (int_add length 1)
        else readSequence_loop file' sequence maxSize length
      else (sequence, length)
  end.

(** [readSequence(filename, sequence, maxSize)]: [file] is the content of
    the file, or [None] when it cannot be opened. The result is what is
    printed, the cells of [sequence] that were written (the symbols and the
    terminating 0) and the returned length. *)
Definition readSequence (file : option (list Z)) (filename : string)
    (maxSize : Z) : list string * list Z * Z :=
  match file with
  | None =>
      ([("Error: Cannot open file " ++ filename ++ newline)%string], [], -1)
  | Some bytes =>
      let '(sequence, length) := readSequence_loop bytes [] maxSize 0 in
      let sequence := sequence ++ [0] in
      let out :=
        if length =? int_sub maxSize 1
        then [("Warning: Sequence may have been truncated" ++ newline)%string]
        else [] in
      (out, sequence, length)
  end.

(** *** printUsage *)

Definition printUsage (programName : string) : list string :=
  [ ("Usage: " ++ programName
     ++ " -alg DNASequenceFile.txt patternFile.txt" ++ newline)%string;
    ("Where alg can be:" ++ newline)%string;
    ("  -bf  : Brute Force algorithm" ++ newline)%string;
    ("  -kr  : Karp-Rabin algorithm" ++ newline)%string ].

(** *** main *)

(** [printf("%d", n)] *)
Definition print_int (n : Z) : string := NilZero.string_of_int (Z.to_int n).

(** The last line of a successful run. *)
Definition found_line (matches : Z) : string :=
  ("The pattern was found: " ++ print_int matches ++ " times" ++ newline)%string.

(** [main(argc, argv)], with [argc] the length of [argv]. [fs] gives the
    content of the files that can be opened; [dna_alloc] and [pat_alloc]
    tell whether the two calls of [malloc] succeed. The result is what is
    printed and the exit status. *)
Definition main (argv : list string) (fs : string -> option (list Z))
    (dna_alloc pat_alloc : bool) : list string * Z :=
  if negb (Z.of_nat (length argv) =? 4) then
    (("Error: Invalid number of arguments" ++ newline)%string
       :: printUsage (nth 0 argv ""%string), 1)
  else
    let algorithm := nth 1 argv ""%string in
    let dnaFile := nth 2 argv ""%string in
    let patternFile := nth 3 argv ""%string in
    if negb (algorithm =? "-bf")%string && negb (algorithm =? "-kr")%string
    then
      (("Error: Invalid algorithm. Use -bf for Brute Force or -kr for Karp-Rabin"
          ++ newline)%string
         :: printUsage (nth 0 argv ""%string), 1)
    else if negb dna_alloc || negb pat_alloc then
      ([("Error: Memory allocation failed" ++ newline)%string], 1)
    else
      let '(out1, dnaSeq, dnaLen) := readSequence (fs dnaFile) dnaFile N in
      if dnaLen =? -1 then
        (out1 ++ [("Error: Failed to read DNA sequence file" ++ newline)%string],
         1)
      else if dnaLen >=? int_sub N 1 then
        (out1 ++ [("Error: DNA sequence too large" ++ newline)%string], 1)
      else
        let '(out2, patSeq, patLen) :=
          readSequence (fs patternFile) patternFile N in
        if patLen =? -1 then
          (out1 ++ out2
             ++ [("Error: Failed to read pattern file" ++ newline)%string], 1)
        else if patLen >=? int_sub N 1 then
          (out1 ++ out2
             ++ [("Error: Pattern sequence too large" ++ newline)%string], 1)
        else if patLen =? 0 then
          (out1 ++ out2 ++ [("Error: Empty pattern" ++ newline)%string], 1)
        else
          let matches :=
            if (algorithm =? "-bf")%string then
              bruteForceSearch dnaSeq patSeq dnaLen patLen
            else if (algorithm =? "-kr")%string then
              karpRabinSearch dnaSeq patSeq dnaLen patLen
            else 0 in
          (out1 ++ out2 ++ [found_line matches], 0).

(** *** Specification-side definitions for the input layer *)

(** The bytes of the file before its first newline. *)
Fixpoint first_line (file : list Z) : list Z :=
  match file with
  | [] => []
  | ch :: file' =>
      if (ch =? EOF) || (ch =? 10) then [] else ch :: first_line file'
  end.

(** A base in either case gives the upper-case base, any other byte
    nothing. *)
Definition base_of (ch : Z) : list Z :=
  if (ch =? 65) || (ch =? 97) then [65]
  else if (ch =? 84) || (ch =? 116) then [84]
  else if (ch =? 67) || (ch =? 99) then [67]
  else if (ch =? 71) || (ch =? 103) then [71]
  else [].

(** [toupper] on ASCII codes. *)
Definition to_upper (ch : Z) : Z :=
  if (97 <=? ch) && (ch <=? 122) then ch - 32 else ch.

(** The warning of [readSequence]. *)
Definition truncation_warning : list string :=
  [("Warning: Sequence may have been truncated" ++ newline)%string].

(** The DNA sequence a file holds: the bases of its first line, in upper
    case. *)
Definition sanitize (file : list Z) : list Z :=
  flat_map base_of (first_line file).

(** ** Machine arithmetic without overflow *)

Section Wrap.

Lemma int_wrap_id z : INT_MIN <= z <= INT_MAX -> int_wrap z = z.
Proof.
  unfold int_wrap, wrap, INT_MIN, INT_MAX; intros Hz.
  change (2 ^ (32 - 1)) with 2147483648.
  change (2 ^ 32) with 4294967296.
  rewrite Z.mod_small; lia.
Qed.

Lemma ll_wrap_id z : LLONG_MIN <= z <= LLONG_MAX -> ll_wrap z = z.
Proof.
  unfold ll_wrap, wrap, LLONG_MIN, LLONG_MAX; intros Hz.
  change (2 ^ (64 - 1)) with 9223372036854775808.
  change (2 ^ 64) with 18446744073709551616.
  rewrite Z.mod_small; lia.
Qed.

Lemma int_wrap_le z : int_wrap z <= INT_MAX.
Proof.
  unfold int_wrap, wrap, INT_MAX.
  change (2 ^ (32 - 1)) with 2147483648.
  change (2 ^ 32) with 4294967296.
  pose proof (Z.mod_pos_bound (z + 2147483648) 4294967296); lia.
Qed.

Lemma int_add_id a b : INT_MIN <= a + b <= INT_MAX -> int_add a b = a + b.
Proof. apply int_wrap_id. Qed.

Lemma int_sub_id a b : INT_MIN <= a - b <= INT_MAX -> int_sub a b = a - b.
Proof. apply int_wrap_id. Qed.

Lemma MOD_val : MOD = 2147483647.
Proof. reflexivity. Qed.

Lemma MOD_pos : 0 < MOD.
Proof. rewrite MOD_val; lia. Qed.

(** [(c * b) % MOD] for a non-negative symbol and a reduced factor. *)
Lemma mul_rem_MOD c b :
  unsigned_char c -> 0 <= b < MOD ->
  ll_rem (ll_mul c b) MOD = (c * b) mod MOD.
Proof.
  unfold unsigned_char, UCHAR_MAX, ll_rem, ll_mul; intros Hc Hb.
  rewrite MOD_val in *.
  rewrite ll_wrap_id by (unfold LLONG_MIN, LLONG_MAX; nia).
  apply Z.rem_mod_nonneg; nia.
Qed.

(** [(a + b) % MOD] for small non-negative operands. *)
Lemma add_rem_MOD a b :
  0 <= a -> 0 <= b -> a + b <= 4 * MOD ->
  ll_rem (ll_add a b) MOD = (a + b) mod MOD.
Proof.
  unfold ll_rem, ll_add; intros Ha Hb Hab.
  rewrite MOD_val in *.
  rewrite ll_wrap_id by (unfold LLONG_MIN, LLONG_MAX; lia).
  apply Z.rem_mod_nonneg; lia.
Qed.

Lemma double_rem_MOD b :
  0 <= b < MOD -> ll_rem (ll_mul b 2) MOD = (2 * b) mod MOD.
Proof.
  unfold ll_rem, ll_mul; intros Hb.
  rewrite MOD_val in *.
  rewrite ll_wrap_id by (unfold LLONG_MIN, LLONG_MAX; lia).
  rewrite Z.rem_mod_nonneg by lia.
  f_equal; lia.
Qed.

End Wrap.

(** ** Buffers and windows *)

Section Buffers.

Lemma char_at_nonneg buf k : nonneg_chars buf -> unsigned_char (char_at buf k).
Proof.
  unfold nonneg_chars, char_at; intros Hbuf.
  destruct (nth_in_or_default (Z.to_nat k) buf 0) as [Hin | ->].
  - rewrite Forall_forall in Hbuf; auto.
  - unfold unsigned_char, UCHAR_MAX; lia.
Qed.

Lemma char_at_skipn buf (i : nat) k :
  0 <= k -> char_at (skipn i buf) k = char_at buf (Z.of_nat i + k).
Proof.
  unfold char_at; intros Hk.
  rewrite nth_skipn. f_equal; lia.
Qed.

(** A DNA sequence has symbols of non-negative character codes, whether
    plain [char] is signed or not. *)
Lemma dna_nonneg_chars buf :
  Forall dna_symbol buf -> Forall signed_char buf /\ nonneg_chars buf.
Proof.
  unfold nonneg_chars, dna_symbol, signed_char, unsigned_char,
    SCHAR_MIN, SCHAR_MAX, UCHAR_MAX.
  intros H; split; eapply Forall_impl; try exact H; cbn beta; intros c Hc; lia.
Qed.

Lemma nonneg_chars_skipn buf i : nonneg_chars buf -> nonneg_chars (skipn i buf).
Proof.
  unfold nonneg_chars; revert buf.
  induction i as [| i IH]; intros [| c buf] H; simpl; auto.
  apply IH. inversion H; assumption.
Qed.

End Buffers.

(** ** The rolling hash *)

Section Hash.

Lemma horner_nonneg str n : nonneg_chars str -> 0 <= horner str n.
Proof.
  intros Hstr; induction n as [| n IH]; cbn [horner]; [lia |].
  pose proof (char_at_nonneg str (Z.of_nat n) Hstr) as Hc.
  unfold unsigned_char in Hc; lia.
Qed.

Lemma sum_snoc (l : list Z) x :
  fold_right Z.add 0 (l ++ [x]) = fold_right Z.add 0 l + x.
Proof.
  induction l as [| y l IH]; cbn [fold_right app]; [lia |].
  rewrite IH; lia.
Qed.

(** Scaling every weight of a partial weighted sum by two. *)
Lemma weighted_terms_double str L n :
  (n <= Z.to_nat L)%nat ->
  fold_right Z.add 0
    (map (fun k => char_at str (Z.of_nat k) * 2 ^ (L + 1 - 1 - Z.of_nat k))
         (seq 0 n))
  = 2 * fold_right Z.add 0
      (map (fun k => char_at str (Z.of_nat k) * 2 ^ (L - 1 - Z.of_nat k))
           (seq 0 n)).
Proof.
  induction n as [| n IH]; intros Hn; [reflexivity |].
  rewrite seq_S, !map_app. cbn [map]. rewrite !sum_snoc.
  rewrite IH by lia. cbn [Nat.add].
  replace (L + 1 - 1 - Z.of_nat n) with (Z.succ (L - 1 - Z.of_nat n)) by lia.
  rewrite Z.pow_succ_r by lia. lia.
Qed.

Lemma horner_weighted_sum str n :
  horner str n = weighted_sum str (Z.of_nat n).
Proof.
  unfold weighted_sum; rewrite Nat2Z.id.
  induction n as [| n IH]; [reflexivity |].
  cbn [horner]. rewrite IH.
  rewrite seq_S, map_app. cbn [map]. rewrite sum_snoc. cbn [Nat.add].
  replace (Z.of_nat (S n) - 1 - Z.of_nat n) with 0 by lia.
  rewrite Z.pow_0_r, Z.mul_1_r.
  replace (Z.of_nat (S n)) with (Z.of_nat n + 1) by lia.
  rewrite weighted_terms_double by lia. lia.
Qed.

(** The window shifted right by one. *)
Lemma horner_shift str n :
  horner (skipn 1 str) n
  = horner str (S n) - char_at str 0 * 2 ^ Z.of_nat n.
Proof.
  induction n as [| n IH].
  - simpl. lia.
  - change (horner (skipn 1 str) (S n))
      with (2 * horner (skipn 1 str) n + char_at (skipn 1 str) (Z.of_nat n)).
    rewrite IH, char_at_skipn by lia.
    change (horner str (S (S n)))
      with (2 * horner str (S n) + char_at str (Z.of_nat (S n))).
    replace (Z.of_nat 1 + Z.of_nat n) with (Z.of_nat (S n)) by lia.
    rewrite Nat2Z.inj_succ, Z.pow_succ_r by lia. lia.
Qed.

(** The loop of [calculateHash], from any reduced state. *)
Lemma calculateHash_loop_spec str n :
  nonneg_chars str ->
  forall hash base,
    0 <= hash < MOD -> 0 <= base < MOD ->
    calculateHash_loop str n hash base = (hash + base * horner str n) mod MOD.
Proof.
  intros Hstr; induction n as [| n IH]; intros hash base Hh Hb.
  - simpl. rewrite Z.mul_0_r, Z.add_0_r, Z.mod_small; auto.
  - pose proof MOD_pos as HM.
    pose proof (char_at_nonneg str (Z.of_nat n) Hstr) as Hc.
    cbn [calculateHash_loop].
    rewrite mul_rem_MOD by assumption.
    pose proof (Z.mod_pos_bound (char_at str (Z.of_nat n) * base) MOD HM).
    rewrite add_rem_MOD by lia.
    rewrite Zplus_mod_idemp_r.
    pose proof (Z.mod_pos_bound (hash + char_at str (Z.of_nat n) * base) MOD HM).
    destruct (0 <? Z.of_nat n) eqn:Hn.
    + rewrite double_rem_MOD by assumption.
      rewrite IH by (auto; apply Z.mod_pos_bound; lia).
      rewrite Zplus_mod_idemp_l.
      rewrite Zplus_mod, Zmult_mod_idemp_l, <- Zplus_mod.
      cbn [horner]. f_equal; lia.
    + apply Z.ltb_ge in Hn. assert (n = O) by lia; subst n.
      rewrite IH by auto.
      cbn [horner]. rewrite Zplus_mod_idemp_l. f_equal; lia.
Qed.

Lemma calculateHash_horner str len :
  nonneg_chars str ->
  calculateHash str len = horner str (Z.to_nat len) mod MOD.
Proof.
  intros Hstr; unfold calculateHash.
  rewrite calculateHash_loop_spec by (auto; rewrite MOD_val; lia).
  f_equal; lia.
Qed.

(** The hash reads only the first [len] symbols. *)
Lemma calculateHash_loop_ext a b n :
  (forall k, (k < n)%nat -> char_at a (Z.of_nat k) = char_at b (Z.of_nat k)) ->
  forall hash base,
    calculateHash_loop a n hash base = calculateHash_loop b n hash base.
Proof.
  induction n as [| n IH]; intros Hab hash base; [reflexivity |].
  simpl. rewrite Hab by lia. apply IH. intros k Hk; apply Hab; lia.
Qed.

Lemma rehash_pow_spec n :
  forall p, 0 <= p < MOD -> rehash_pow n p = (p * 2 ^ Z.of_nat n) mod MOD.
Proof.
  pose proof MOD_pos as HM.
  induction n as [| n IH]; intros p Hp.
  - simpl. rewrite Z.mul_1_r, Z.mod_small; auto.
  - cbn [rehash_pow]. rewrite double_rem_MOD by assumption.
    rewrite IH by (apply Z.mod_pos_bound; lia).
    rewrite Zmult_mod_idemp_l.
    rewrite Nat2Z.inj_succ, Z.pow_succ_r by lia. f_equal; lia.
Qed.

Lemma rehash_pow_range n p : 0 <= p < MOD -> 0 <= rehash_pow n p < MOD.
Proof.
  intros Hp. rewrite rehash_pow_spec by assumption.
  apply Z.mod_pos_bound, MOD_pos.
Qed.

(** The modular subtraction of [rehash], with its fix-up. *)
Lemma rehash_sub_spec oldChar oldHash patternLen :
  unsigned_char oldChar -> 0 <= oldHash < MOD ->
  rehash_sub oldChar oldHash patternLen
  = (oldHash
     - oldChar * 2 ^ Z.of_nat (Z.to_nat (int_sub patternLen 1))) mod MOD.
Proof.
  intros Hc Hh. pose proof MOD_pos as HM. unfold rehash_sub.
  set (n := Z.to_nat (int_sub patternLen 1)).
  assert (H1 : 0 <= 1 < MOD) by (rewrite MOD_val; lia).
  assert (Hp : 0 <= rehash_pow n 1 < MOD) by (apply rehash_pow_range; lia).
  rewrite mul_rem_MOD by assumption.
  rewrite rehash_pow_spec, Z.mul_1_l, Zmult_mod_idemp_r by lia.
  pose proof (Z.mod_pos_bound (oldChar * 2 ^ Z.of_nat n) MOD HM) as Ht.
  rewrite <- (Zminus_mod_idemp_r oldHash).
  set (t := (oldChar * 2 ^ Z.of_nat n) mod MOD) in *.
  unfold ll_sub, ll_add. rewrite MOD_val in *.
  rewrite ll_wrap_id by (unfold LLONG_MIN, LLONG_MAX; lia).
  destruct (oldHash - t <? 0) eqn:Hneg.
  - apply Z.ltb_lt in Hneg.
    rewrite ll_wrap_id by (unfold LLONG_MIN, LLONG_MAX; lia).
    apply (Z.mod_unique _ _ (-1)); lia.
  - apply Z.ltb_ge in Hneg. symmetry; apply Z.mod_small; lia.
Qed.

(** Whatever the sign of the symbol that leaves the window, the fix-up
    leaves no negative value. *)
Lemma rehash_sub_nonneg oldChar oldHash patternLen :
  signed_char oldChar \/ unsigned_char oldChar -> 0 <= oldHash < MOD ->
  0 <= rehash_sub oldChar oldHash patternLen.
Proof.
  intros Hc Hh. unfold rehash_sub.
  set (n := Z.to_nat (int_sub patternLen 1)).
  assert (H1 : 0 <= 1 < MOD) by (rewrite MOD_val; lia).
  pose proof (rehash_pow_range n 1 H1) as Hp.
  set (p := rehash_pow n 1) in *.
  assert (Hc' : -128 <= oldChar <= 255)
    by (unfold signed_char, unsigned_char, SCHAR_MIN, SCHAR_MAX, UCHAR_MAX in Hc;
        lia).
  unfold ll_rem, ll_mul, ll_sub, ll_add. rewrite MOD_val in *.
  rewrite (ll_wrap_id (oldChar * p)) by (unfold LLONG_MIN, LLONG_MAX; nia).
  pose proof (Z.rem_bound_abs (oldChar * p) 2147483647 ltac:(lia)) as Ht.
  set (t := Z.rem (oldChar * p) 2147483647) in *.
  rewrite (ll_wrap_id (oldHash - t)) by (unfold LLONG_MIN, LLONG_MAX; lia).
  destruct (oldHash - t <? 0) eqn:Hneg.
  - rewrite ll_wrap_id by (unfold LLONG_MIN, LLONG_MAX; lia). lia.
  - apply Z.ltb_ge in Hneg. exact Hneg.
Qed.

Lemma rehash_spec oldChar oldHash newChar patternLen :
  unsigned_char oldChar -> unsigned_char newChar -> 0 <= oldHash < MOD ->
  rehash oldChar oldHash newChar patternLen
  = (2 * (oldHash
          - oldChar * 2 ^ Z.of_nat (Z.to_nat (int_sub patternLen 1)))
     + newChar) mod MOD.
Proof.
  intros Hc Hc' Hh. pose proof MOD_pos as HM. unfold rehash.
  rewrite rehash_sub_spec by assumption.
  set (d := oldHash - _).
  pose proof (Z.mod_pos_bound d MOD HM) as Hd.
  unfold unsigned_char, UCHAR_MAX in Hc'.
  unfold ll_mul. rewrite MOD_val in *.
  rewrite ll_wrap_id by (unfold LLONG_MIN, LLONG_MAX; lia).
  rewrite <- MOD_val in *.
  rewrite add_rem_MOD by (rewrite ?MOD_val in *; lia).
  rewrite Zplus_mod, (Z.mul_comm (d mod MOD)), Zmult_mod_idemp_r, <- Zplus_mod.
  reflexivity.
Qed.

(** The incremental update reproduces the full recomputation on the
    window shifted right by one, for symbols with non-negative codes. *)
Lemma rehash_calculateHash s L :
  1 <= L <= INT_MAX -> nonneg_chars s ->
  calculateHash (skipn 1 s) L
  = rehash (char_at s 0) (calculateHash s L) (char_at s L) L.
Proof.
  intros HL Hs. pose proof MOD_pos as HM.
  rewrite calculateHash_horner by (apply nonneg_chars_skipn; assumption).
  rewrite rehash_spec;
    try (apply char_at_nonneg; assumption);
    try (rewrite calculateHash_horner by assumption;
         apply Z.mod_pos_bound; assumption).
  rewrite calculateHash_horner by assumption.
  rewrite int_sub_id by (unfold INT_MIN, INT_MAX in *; lia).
  rewrite horner_shift. cbn [horner].
  rewrite !Z2Nat.id by lia.
  replace (2 ^ L) with (2 * 2 ^ (L - 1))
    by (rewrite <- Z.pow_succ_r by lia; f_equal; lia).
  pose proof (Z.div_mod (horner s (Z.to_nat L)) MOD) as Hdiv.
  set (h := horner s (Z.to_nat L)) in *.
  set (q := h / MOD) in *. set (r := h mod MOD) in *.
  replace (2 * h + char_at s L - char_at s 0 * (2 * 2 ^ (L - 1)))
    with (2 * (r - char_at s 0 * 2 ^ (L - 1)) + char_at s L + (2 * q) * MOD)
    by lia.
  apply Z_mod_plus_full.
Qed.

End Hash.

(** ** The two scanners *)

Section Scanners.

Variables text pattern : list Z.

Lemma elemwise_true P i :
  elemwise text pattern P i = true <->
  forall k, (k < P)%nat ->
    char_at text (i + Z.of_nat k) = char_at pattern (Z.of_nat k).
Proof.
  unfold elemwise. rewrite forallb_forall. split.
  - intros H k Hk. apply Z.eqb_eq, H, in_seq; lia.
  - intros H k Hk. apply in_seq in Hk. apply Z.eqb_eq, H; lia.
Qed.

(** The inner loop of [bruteForceSearch] stops at [patternLen] exactly
    when the remaining symbols all agree. *)
Lemma bf_while_spec i P fuel :
  0 <= i -> i + P <= INT_MAX ->
  forall j : nat,
    Z.of_nat (j + fuel) = P ->
    bf_while text pattern i P fuel (Z.of_nat j) = P <->
    (forall k, (j <= k < j + fuel)%nat ->
       char_at text (i + Z.of_nat k) = char_at pattern (Z.of_nat k)).
Proof.
  intros Hi HiP. unfold INT_MAX in HiP.
  induction fuel as [| fuel IH]; intros j Hj.
  - simpl. split; [intros _ k Hk; lia | intros _; lia].
  - cbn [bf_while].
    assert (Hlt : (Z.of_nat j <? P) = true) by (apply Z.ltb_lt; lia).
    rewrite Hlt, andb_true_l.
    rewrite int_add_id by (unfold INT_MIN, INT_MAX; lia).
    destruct (char_at text (i + Z.of_nat j) =? char_at pattern (Z.of_nat j))
      eqn:Heq.
    + apply Z.eqb_eq in Heq.
      rewrite int_add_id by (unfold INT_MIN, INT_MAX; lia).
      replace (Z.of_nat j + 1) with (Z.of_nat (S j)) by lia.
      rewrite IH by lia. split.
      * intros H k Hk. destruct (Nat.eq_dec k j) as [-> | Hne]; auto.
        apply H; lia.
      * intros H k Hk. apply H; lia.
    + apply Z.eqb_neq in Heq. split; [lia |].
      intros H. exfalso. apply Heq, H; lia.
Qed.

Lemma bf_while_elemwise i P :
  0 <= i -> 0 <= P -> i + P <= INT_MAX ->
  (bf_while text pattern i P (Z.to_nat P) 0 =? P)
  = elemwise text pattern (Z.to_nat P) i.
Proof.
  intros Hi HP HiP. apply eq_true_iff_eq.
  rewrite Z.eqb_eq, elemwise_true.
  rewrite (bf_while_spec i P (Z.to_nat P) Hi HiP 0%nat) by lia.
  split; intros H k Hk; apply H; lia.
Qed.

Lemma verifyMatch_loop_spec pos P n :
  0 <= pos -> pos + P <= INT_MAX ->
  forall j : nat,
    Z.of_nat (j + n) = P ->
    verifyMatch_loop text pattern pos n (Z.of_nat j) <> 0 <->
    (forall k, (j <= k < j + n)%nat ->
       char_at text (pos + Z.of_nat k) = char_at pattern (Z.of_nat k)).
Proof.
  intros Hpos HP. unfold INT_MAX in HP.
  induction n as [| n IH]; intros j Hj.
  - simpl. split; [intros _ k Hk; lia | intros _; lia].
  - cbn [verifyMatch_loop].
    rewrite int_add_id by (unfold INT_MIN, INT_MAX; lia).
    destruct (char_at text (pos + Z.of_nat j) =? char_at pattern (Z.of_nat j))
      eqn:Heq; cbn [negb].
    + apply Z.eqb_eq in Heq.
      rewrite int_add_id by (unfold INT_MIN, INT_MAX; lia).
      replace (Z.of_nat j + 1) with (Z.of_nat (S j)) by lia.
      rewrite IH by lia. split.
      * intros H k Hk. destruct (Nat.eq_dec k j) as [-> | Hne]; auto.
        apply H; lia.
      * intros H k Hk. apply H; lia.
    + apply Z.eqb_neq in Heq. split; [lia |].
      intros H. exfalso. apply Heq, H; lia.
Qed.

Lemma verifyMatch_elemwise pos P :
  0 <= pos -> 0 <= P -> pos + P <= INT_MAX ->
  negb (verifyMatch text pattern pos P =? 0)
  = elemwise text pattern (Z.to_nat P) pos.
Proof.
  intros Hpos HP HposP. apply eq_true_iff_eq.
  rewrite negb_true_iff, Z.eqb_neq, elemwise_true. unfold verifyMatch.
  rewrite (verifyMatch_loop_spec pos P (Z.to_nat P) Hpos HposP 0%nat) by lia.
  split; intros H k Hk; apply H; lia.
Qed.

(** Element-wise agreement is equality of the window with the pattern. *)
Lemma elemwise_occurs_at P i :
  (i + P <= length text)%nat -> (P <= length pattern)%nat ->
  elemwise text pattern P (Z.of_nat i) = occurs_at text pattern P i.
Proof.
  intros Hlt Hlp. apply eq_true_iff_eq. rewrite elemwise_true.
  unfold occurs_at, window.
  destruct (list_eq_dec Z.eq_dec (firstn P (skipn i text)) (firstn P pattern))
    as [Heq | Hne].
  - split; [reflexivity | intros _ k Hk].
    assert (Hk' : (k <? P)%nat = true) by (apply Nat.ltb_lt; assumption).
    unfold char_at. rewrite <- Nat2Z.inj_add, !Nat2Z.id.
    rewrite <- nth_skipn.
    transitivity (nth k (firstn P (skipn i text)) 0);
      [rewrite nth_firstn, Hk'; reflexivity |].
    rewrite Heq, nth_firstn, Hk'; reflexivity.
  - split; [| discriminate]. intros H. exfalso. apply Hne.
    apply (nth_ext _ _ 0 0).
    + rewrite !length_firstn, length_skipn; lia.
    + intros k Hk. rewrite length_firstn in Hk.
      assert (Hk' : (k <? P)%nat = true) by (apply Nat.ltb_lt; lia).
      rewrite !nth_firstn, Hk', nth_skipn.
      specialize (H k ltac:(lia)). unfold char_at in H.
      rewrite <- Nat2Z.inj_add, !Nat2Z.id in H. exact H.
Qed.

(** The outer loop of [bruteForceSearch] counts the agreeing offsets. *)
Lemma bf_for_spec P n :
  0 <= P ->
  forall (i : nat) matches,
    Z.of_nat (i + n) <= INT_MAX ->
    Z.of_nat (i + n) + P <= INT_MAX + 1 ->
    0 <= matches -> matches + Z.of_nat n <= INT_MAX ->
    bf_for text pattern P n (Z.of_nat i) matches
    = matches
      + Z.of_nat (length (filter (fun k => elemwise text pattern (Z.to_nat P)
                                                    (Z.of_nat k))
                                 (seq i n))).
Proof.
  intros HP. induction n as [| n IH]; intros i matches Hi HiP Hm Hmn.
  - simpl. lia.
  - unfold INT_MAX in *. cbn [bf_for seq filter].
    rewrite bf_while_elemwise by (unfold INT_MAX; lia).
    rewrite !int_add_id by (unfold INT_MIN, INT_MAX; lia).
    replace (Z.of_nat i + 1) with (Z.of_nat (S i)) by lia.
    destruct (elemwise text pattern (Z.to_nat P) (Z.of_nat i)).
    + rewrite IH by lia. cbn [length]. lia.
    + rewrite IH by lia. reflexivity.
Qed.

(** A hit of the hashed scanner on the right window hash is an
    element-wise match: the hash comparison never hides one. *)
Lemma kr_hit_elemwise (i : nat) P :
  0 <= P -> Z.of_nat i + P <= INT_MAX ->
  kr_hit text pattern (calculateHash pattern P)
         (calculateHash (skipn i text) P) (Z.of_nat i) P
  = elemwise text pattern (Z.to_nat P) (Z.of_nat i).
Proof.
  intros HP HiP. unfold kr_hit.
  rewrite verifyMatch_elemwise by lia.
  destruct (elemwise text pattern (Z.to_nat P) (Z.of_nat i)) eqn:He;
    [| apply andb_false_r].
  rewrite andb_true_r. apply Z.eqb_eq.
  unfold calculateHash. symmetry. apply calculateHash_loop_ext.
  intros k Hk. rewrite char_at_skipn by lia.
  rewrite elemwise_true in He. apply He, Hk.
Qed.

(** The rolling loop of [karpRabinSearch]: the hash it carries is the
    hash of the current window, and it counts the agreeing offsets. *)
Lemma kr_for_spec P n :
  nonneg_chars text -> 1 <= P ->
  forall (i : nat) matches,
    Z.of_nat (S i + n) + P <= INT_MAX + 1 ->
    0 <= matches -> matches + Z.of_nat n <= INT_MAX ->
    kr_for text pattern P (calculateHash pattern P) n (Z.of_nat (S i))
           (calculateHash (skipn i text) P) matches
    = matches
      + Z.of_nat (length (filter (fun k => elemwise text pattern (Z.to_nat P)
                                                    (Z.of_nat k))
                                 (seq (S i) n))).
Proof.
  intros Htext HP. induction n as [| n IH]; intros i matches HiP Hm Hmn.
  - simpl. lia.
  - unfold INT_MAX in *. cbn [kr_for seq filter].
    rewrite !int_add_id, !int_sub_id by (unfold INT_MIN, INT_MAX; lia).
    replace (rehash _ _ _ P) with (calculateHash (skipn (S i) text) P).
    + rewrite kr_hit_elemwise by (unfold INT_MAX; lia).
      replace (Z.of_nat (S i) + 1) with (Z.of_nat (S (S i))) by lia.
      destruct (elemwise text pattern (Z.to_nat P) (Z.of_nat (S i))).
      * rewrite IH by lia. cbn [length]. lia.
      * rewrite IH by lia. reflexivity.
    + change (S i) with (1 + i)%nat at 1. rewrite <- skipn_skipn.
      rewrite rehash_calculateHash
        by (auto using nonneg_chars_skipn; unfold INT_MAX; lia).
      rewrite !char_at_skipn by lia.
      f_equal; f_equal; lia.
Qed.

End Scanners.

(** ** The scanners on buffers that hold at least the stated lengths *)

Section Counts.

Variables text pattern : list Z.
Variables T P : Z.
Hypothesis text_holds : 0 <= T <= Z.of_nat (length text).
Hypothesis pattern_holds : 0 <= P <= Z.of_nat (length pattern).
Hypothesis T_int : T <= INT_MAX.
Hypothesis P_int : P <= INT_MAX.

Lemma occurrences_elemwise :
  occurrences text pattern T P
  = filter (fun k => elemwise text pattern (Z.to_nat P) (Z.of_nat k))
           (seq 0 (Z.to_nat (T - P + 1))).
Proof.
  unfold occurrences. apply filter_ext_in. intros k Hk.
  apply in_seq in Hk. symmetry. apply elemwise_occurs_at; lia.
Qed.

Lemma bruteForceSearch_count :
  T - P < INT_MAX ->
  bruteForceSearch text pattern T P = count_occurrences text pattern T P.
Proof.
  intros Hlt. unfold bruteForceSearch, count_occurrences.
  rewrite occurrences_elemwise. unfold INT_MAX in *.
  rewrite int_sub_id by (unfold INT_MIN, INT_MAX; lia).
  rewrite (bf_for_spec text pattern P _ (proj1 pattern_holds) 0%nat 0)
    by (unfold INT_MAX; lia).
  reflexivity.
Qed.

Lemma karpRabinSearch_count :
  nonneg_chars text -> 1 <= P ->
  karpRabinSearch text pattern T P = count_occurrences text pattern T P.
Proof.
  intros Htext HP. unfold karpRabinSearch, count_occurrences.
  rewrite occurrences_elemwise. unfold INT_MAX in *.
  destruct (P >? T) eqn:Hgt.
  - apply Z.gtb_lt in Hgt.
    replace (Z.to_nat (T - P + 1)) with 0%nat by lia. reflexivity.
  - assert (HPT : P <= T) by (rewrite Z.gtb_ltb in Hgt; apply Z.ltb_ge, Hgt).
    rewrite int_sub_id, int_add_id by (unfold INT_MIN, INT_MAX; lia).
    replace (Z.to_nat (T - P + 1)) with (S (Z.to_nat (T - P))) by lia.
    cbn [seq filter].
    pose proof (kr_hit_elemwise text pattern 0%nat P) as Hhit.
    cbn [skipn Z.of_nat] in Hhit. rewrite Hhit by (unfold INT_MAX; lia).
    pose proof (kr_for_spec text pattern P (Z.to_nat (T - P)) Htext HP 0%nat)
      as Hfor.
    cbn [skipn] in Hfor. change (Z.of_nat 1) with 1 in Hfor.
    change (Z.of_nat 0) with 0.
    destruct (elemwise text pattern (Z.to_nat P) 0).
    + rewrite Hfor by (unfold INT_MAX; lia). cbn [length]. lia.
    + rewrite Hfor by (unfold INT_MAX; lia). reflexivity.
Qed.

End Counts.

(** ** The modulus *)

Lemma no_divisor_sound p n :
  forall d, no_divisor p n d = true ->
  forall k, d <= k < d + Z.of_nat n -> p mod k <> 0.
Proof.
  induction n as [| n IH]; intros d Hnd k Hk; [lia |].
  cbn [no_divisor] in Hnd. apply andb_true_iff in Hnd as [Hd Hrest].
  destruct (Z.eq_dec k d) as [-> | Hne].
  - apply negb_true_iff, Z.eqb_neq in Hd. exact Hd.
  - apply (IH (d + 1)); [assumption | lia].
Qed.

(** [INT_MAX] is the Mersenne prime [2 ^ 31 - 1]. *)
Lemma MOD_prime : prime MOD.
Proof.
  apply prime_alt. split; [rewrite MOD_val; lia |].
  intros n Hn [k Hk].
  assert (Hcheck : no_divisor MOD (Z.to_nat 46339) 2 = true)
    by (vm_compute; reflexivity).
  pose proof (no_divisor_sound _ _ _ Hcheck) as Hnd.
  rewrite Z2Nat.id in Hnd by lia.
  destruct (Z_le_gt_dec n 46340) as [Hsmall | Hbig].
  - apply (Hnd n); [lia |]. rewrite Hk. apply Z_mod_mult.
  - rewrite MOD_val in *.
    assert (1 < k <= 46340) by nia.
    apply (Hnd k); [lia |]. rewrite ?MOD_val, Hk, Z.mul_comm.
    apply Z_mod_mult.
Qed.

(** ** Properties of the specification *)

(** Symbols of a concrete buffer are non-negative character codes. *)
Ltac chars := unfold nonneg_chars; cbn; repeat constructor; cbv; discriminate.

Lemma filter_all {A} (f : A -> bool) (l : list A) :
  (forall x, f x = true) -> filter f l = l.
Proof.
  intros Hf. induction l as [| x l IH]; cbn [filter]; [reflexivity |].
  rewrite Hf, IH; reflexivity.
Qed.

Lemma occurs_at_whole text pattern :
  length text = length pattern ->
  occurs_at text pattern (length text) 0
  = if list_eq_dec Z.eq_dec text pattern then true else false.
Proof.
  intros Hlen. unfold occurs_at, window. cbn [skipn].
  rewrite firstn_all, Hlen, firstn_all. reflexivity.
Qed.

Lemma occurs_at_pattern text pattern i :
  occurs_at text pattern (length pattern) i = true
  <-> window text i (length pattern) = pattern.
Proof.
  unfold occurs_at. rewrite firstn_all.
  destruct (list_eq_dec Z.eq_dec (window text i (length pattern)) pattern);
    split; auto; discriminate.
Qed.

(** C3. For a text of length T and a pattern of length P >= 1,
    [bruteForceSearch] returns the number of offsets i in [0, T - P] at
    which text[i..i+P) equals the pattern element-wise, overlapping
    occurrences included. *)
Theorem bruteForceSearch_counts_occurrences text pattern T P :
  Z.of_nat (length text) = T -> Z.of_nat (length pattern) = P ->
  T <= INT_MAX -> 1 <= P <= INT_MAX ->
  bruteForceSearch text pattern T P = count_occurrences text pattern T P.
Proof.
  intros HT HP HTint HPint.
  apply bruteForceSearch_count; unfold INT_MAX in *; lia.
Qed.

Lemma bruteForceSearch_counts_occurrences_witness :
  bruteForceSearch (c_str "ATCGATCGATCG") (c_str "ATCG") 12 4
  = count_occurrences (c_str "ATCGATCGATCG") (c_str "ATCG") 12 4.
Proof.
  apply bruteForceSearch_counts_occurrences;
    [reflexivity | reflexivity | unfold INT_MAX; lia | unfold INT_MAX; lia].
Defined.

(** C1 (amended). For a text of length T >= 0 whose symbols have
    non-negative character codes and a pattern of length P >= 1,
    [bruteForceSearch] and [karpRabinSearch] return the same count. *)
Theorem scanners_agree text pattern T P :
  Z.of_nat (length text) = T -> Z.of_nat (length pattern) = P ->
  T <= INT_MAX -> 1 <= P <= INT_MAX ->
  nonneg_chars text ->
  bruteForceSearch text pattern T P = karpRabinSearch text pattern T P.
Proof.
  intros HT HP HTint HPint Htext.
  rewrite bruteForceSearch_count, karpRabinSearch_count;
    auto; unfold INT_MAX in *; lia.
Qed.

Lemma scanners_agree_witness :
  bruteForceSearch (c_str "ATCGATCGATCG") (c_str "ATCG") 12 4
  = karpRabinSearch (c_str "ATCGATCGATCG") (c_str "ATCG") 12 4.
Proof.
  apply scanners_agree;
    [reflexivity | reflexivity | unfold INT_MAX; lia | unfold INT_MAX; lia
    | chars].
Defined.

(** C1 as stated fails where plain [char] is signed: on the text
    [{'A', 0xFF, 0xFF}] and the pattern [{0xFF, 0xFF}] the exact scanner
    counts the occurrence at offset 1 and the hashed scanner misses it. *)
Lemma scanners_disagree_on_negative_chars :
  Forall signed_char [65; -1; -1] /\ Forall signed_char [-1; -1] /\
  bruteForceSearch [65; -1; -1] [-1; -1] 3 2 = 1 /\
  karpRabinSearch [65; -1; -1] [-1; -1] 3 2 = 0 /\
  bruteForceSearch [65; -1; -1] [-1; -1] 3 2
  <> karpRabinSearch [65; -1; -1] [-1; -1] 3 2.
Proof.
  repeat split; try (repeat constructor; cbv; discriminate);
    vm_compute; discriminate.
Qed.

(** C2 (amended). For a window length L >= 1 and a buffer s of length
    L + 1 whose symbols have non-negative character codes,
    [calculateHash(s + 1, L)] equals
    [rehash(s[0], calculateHash(s, L), s[L], L)]. *)
Theorem rehash_is_full_hash_of_shifted_window s L :
  1 <= L <= INT_MAX -> Z.of_nat (length s) = L + 1 -> nonneg_chars s ->
  calculateHash (skipn 1 s) L
  = rehash (char_at s 0) (calculateHash s L) (char_at s L) L.
Proof.
  intros HL _ Hs. apply rehash_calculateHash; assumption.
Qed.

Lemma rehash_is_full_hash_of_shifted_window_witness :
  calculateHash (skipn 1 (c_str "ATCGA")) 4
  = rehash (char_at (c_str "ATCGA") 0) (calculateHash (c_str "ATCGA") 4)
           (char_at (c_str "ATCGA") 4) 4.
Proof.
  apply rehash_is_full_hash_of_shifted_window;
    [unfold INT_MAX; lia | reflexivity | chars].
Defined.

(** C2 as stated fails where plain [char] is signed: for the buffer
    [{'A', 0xFF, 0xFF}] and L = 2 the full hash of the shifted window is
    -3 and the incremental update gives MOD - 3. *)
Lemma rehash_differs_on_negative_chars :
  Forall signed_char [65; -1; -1] /\
  calculateHash (skipn 1 [65; -1; -1]) 2 = -3 /\
  rehash (char_at [65; -1; -1] 0) (calculateHash [65; -1; -1] 2)
         (char_at [65; -1; -1] 2) 2 = 2147483644 /\
  calculateHash (skipn 1 [65; -1; -1]) 2
  <> rehash (char_at [65; -1; -1] 0) (calculateHash [65; -1; -1] 2)
            (char_at [65; -1; -1] 2) 2.
Proof.
  repeat split; try (repeat constructor; cbv; discriminate);
    vm_compute; discriminate.
Qed.

(** C4 (amended). For a buffer str of symbols with non-negative character
    codes and a length L >= 1, [calculateHash(str, L)] is the sum over k
    in [0, L) of [str[k] * 2 ^ (L - 1 - k)], reduced modulo MOD, where
    [str[k]] is the raw character code. *)
Theorem calculateHash_weighted_sum str L :
  1 <= L <= Z.of_nat (length str) -> nonneg_chars str ->
  calculateHash str L = weighted_sum str L mod MOD.
Proof.
  intros HL Hstr.
  rewrite calculateHash_horner, horner_weighted_sum, Z2Nat.id by (auto; lia).
  reflexivity.
Qed.

Lemma calculateHash_weighted_sum_witness :
  calculateHash (c_str "ATCG") 4 = weighted_sum (c_str "ATCG") 4 mod MOD.
Proof.
  apply calculateHash_weighted_sum; [cbn; lia | chars].
Defined.

(** C4 as stated fails where plain [char] is signed: on the window of
    length 31 that holds 0xFF, 5 and then 29 zero bytes the weighted sum is
    3 * 2^29, below MOD, and the code returns 1 - 2^29. The same holds
    whether "mod" is read as the mathematical remainder or as C's [%]. *)
Lemma calculateHash_differs_on_negative_chars :
  Forall signed_char ([-1; 5] ++ repeat 0 29) /\
  calculateHash ([-1; 5] ++ repeat 0 29) 31 = -536870911 /\
  weighted_sum ([-1; 5] ++ repeat 0 29) 31 = 1610612736 /\
  calculateHash ([-1; 5] ++ repeat 0 29) 31
  <> weighted_sum ([-1; 5] ++ repeat 0 29) 31 mod MOD /\
  calculateHash ([-1; 5] ++ repeat 0 29) 31
  <> Z.rem (weighted_sum ([-1; 5] ++ repeat 0 29) 31) MOD.
Proof.
  repeat split; try (cbn; repeat constructor; cbv; discriminate);
    vm_compute; discriminate.
Qed.

(** C5. When the pattern is longer than the text, both scanners return 0,
    whatever the buffers hold. *)
Theorem pattern_longer_than_text text pattern T P :
  0 <= T -> T < P -> P <= INT_MAX ->
  bruteForceSearch text pattern T P = 0
  /\ karpRabinSearch text pattern T P = 0.
Proof.
  intros HT HTP HP. unfold INT_MAX in HP. split.
  - unfold bruteForceSearch.
    rewrite int_sub_id by (unfold INT_MIN, INT_MAX; lia).
    replace (Z.to_nat (T - P + 1)) with 0%nat by lia. reflexivity.
  - unfold karpRabinSearch.
    assert (Hgt : (P >? T) = true) by (rewrite Z.gtb_ltb; apply Z.ltb_lt; lia).
    rewrite Hgt. reflexivity.
Qed.

Lemma pattern_longer_than_text_witness :
  bruteForceSearch (c_str "ACG") (c_str "ACGT") 3 4 = 0
  /\ karpRabinSearch (c_str "ACG") (c_str "ACGT") 3 4 = 0.
Proof.
  apply pattern_longer_than_text; unfold INT_MAX; lia.
Defined.

(** C6 (amended). On symbols with non-negative character codes every
    fingerprint lies in [0, MOD): [calculateHash(str, L)] for every L, and
    [rehash(oldChar, oldHash, newChar, L)] whenever 0 <= oldHash < MOD,
    the value left by its modular subtraction being in [0, MOD) too.
    That value is never negative, whatever the symbols. *)
Theorem fingerprints_in_range :
  (forall str L,
      L <= Z.of_nat (length str) -> nonneg_chars str ->
      0 <= calculateHash str L < MOD)
  /\ (forall oldChar oldHash newChar L,
        unsigned_char oldChar -> unsigned_char newChar ->
        0 <= oldHash < MOD ->
        0 <= rehash_sub oldChar oldHash L < MOD
        /\ 0 <= rehash oldChar oldHash newChar L < MOD)
  /\ (forall oldChar oldHash L,
        signed_char oldChar \/ unsigned_char oldChar ->
        0 <= oldHash < MOD ->
        0 <= rehash_sub oldChar oldHash L).
Proof.
  pose proof MOD_pos as HM. split; [| split].
  - intros str L _ Hstr. rewrite calculateHash_horner by assumption.
    apply Z.mod_pos_bound; assumption.
  - intros oldChar oldHash newChar L Hc Hc' Hh. split.
    + rewrite rehash_sub_spec by assumption.
      apply Z.mod_pos_bound; assumption.
    + rewrite rehash_spec by assumption.
      apply Z.mod_pos_bound; assumption.
  - intros oldChar oldHash L. apply rehash_sub_nonneg.
Qed.

Lemma fingerprints_in_range_witness :
  0 <= calculateHash (c_str "ATCG") 4 < MOD
  /\ 0 <= rehash_sub 65 (calculateHash (c_str "ATCG") 4) 4 < MOD
  /\ 0 <= rehash 65 (calculateHash (c_str "ATCG") 4) 65 4 < MOD
  /\ 0 <= rehash_sub (-1) 0 1.
Proof.
  split; [| split; [| split]].
  - apply (proj1 fingerprints_in_range); [cbn; lia | chars].
  - apply (proj1 (proj2 fingerprints_in_range) 65 _ 65);
      [ cbv; split; discriminate | cbv; split; discriminate
      | apply (proj1 fingerprints_in_range); [cbn; lia | chars] ].
  - apply (proj1 (proj2 fingerprints_in_range) 65 _ 65);
      [ cbv; split; discriminate | cbv; split; discriminate
      | apply (proj1 fingerprints_in_range); [cbn; lia | chars] ].
  - apply (proj2 (proj2 fingerprints_in_range));
      [ left; cbv; split; discriminate | rewrite MOD_val; lia ].
Defined.

(** C6 as stated fails where plain [char] is signed: the hash of the
    one-symbol window [{0xFF}] is -1, and so is the rehash of the
    fingerprint 0 when the symbol 0xFF comes in. *)
Lemma fingerprints_negative_on_negative_chars :
  signed_char (-1) /\ signed_char 0 /\
  calculateHash [-1] 1 = -1 /\ rehash 0 0 (-1) 1 = -1 /\
  ~ (0 <= calculateHash [-1] 1 < MOD) /\
  ~ (0 <= 0 < MOD -> 0 <= rehash 0 0 (-1) 1 < MOD).
Proof.
  repeat split; try (cbv; discriminate).
  - vm_compute. intros [H _]. apply H; reflexivity.
  - vm_compute. intros H.
    destruct H as [H _]; [split; [discriminate | reflexivity] |].
    apply H; reflexivity.
Qed.

(** C7 (amended). The modulus is [INT_MAX = 2 ^ 31 - 1 = 2147483647], the
    largest value of the 32-bit signed [int], and it is a prime number. *)
Theorem MOD_is_INT_MAX_and_prime :
  MOD = INT_MAX /\ MOD = 2 ^ 31 - 1
  /\ int_wrap MOD = MOD /\ (forall z, int_wrap z <= MOD)
  /\ prime MOD.
Proof.
  split; [reflexivity |]. split; [reflexivity |]. split; [reflexivity |].
  split; [exact int_wrap_le | exact MOD_prime].
Qed.

(** C7 as stated fails: the modulus is not composite. *)
Lemma MOD_not_composite :
  MOD = 2147483647 /\ ~ (~ prime MOD).
Proof.
  split; [reflexivity |]. intros H. apply H, MOD_prime.
Qed.

(** C8. When the pattern is as long as the text, each scanner returns 1
    if the two are equal element-wise and 0 otherwise. *)
Theorem equal_lengths text pattern T :
  Z.of_nat (length text) = T -> Z.of_nat (length pattern) = T ->
  1 <= T <= INT_MAX ->
  bruteForceSearch text pattern T T
  = (if list_eq_dec Z.eq_dec text pattern then 1 else 0)
  /\ karpRabinSearch text pattern T T
     = (if list_eq_dec Z.eq_dec text pattern then 1 else 0).
Proof.
  intros Ht Hp HT. unfold INT_MAX in HT.
  assert (Hlen : length text = length pattern) by lia.
  assert (Hocc : elemwise text pattern (Z.to_nat T) 0
                 = if list_eq_dec Z.eq_dec text pattern then true else false).
  { change 0 with (Z.of_nat 0). rewrite elemwise_occurs_at by lia.
    replace (Z.to_nat T) with (length text) by lia.
    apply occurs_at_whole, Hlen. }
  split.
  - rewrite bruteForceSearch_count by (unfold INT_MAX; lia).
    unfold count_occurrences.
    rewrite occurrences_elemwise by (unfold INT_MAX; lia).
    replace (Z.to_nat (T - T + 1)) with 1%nat by lia.
    cbn [seq filter]. change (Z.of_nat 0) with 0. rewrite Hocc.
    destruct (list_eq_dec Z.eq_dec text pattern); reflexivity.
  - unfold karpRabinSearch.
    assert (Hgt : (T >? T) = false) by (rewrite Z.gtb_ltb; apply Z.ltb_irrefl).
    rewrite Hgt, int_sub_id by (unfold INT_MIN, INT_MAX; lia).
    replace (Z.to_nat (T - T)) with 0%nat by lia. cbn [kr_for].
    pose proof (kr_hit_elemwise text pattern 0%nat T) as Hhit.
    cbn [skipn Z.of_nat] in Hhit. rewrite Hhit, Hocc by (unfold INT_MAX; lia).
    destruct (list_eq_dec Z.eq_dec text pattern); reflexivity.
Qed.

Lemma equal_lengths_witness :
  bruteForceSearch (c_str "ACGT") (c_str "ACGT") 4 4
  = (if list_eq_dec Z.eq_dec (c_str "ACGT") (c_str "ACGT") then 1 else 0)
  /\ karpRabinSearch (c_str "ACGT") (c_str "ACGT") 4 4
     = (if list_eq_dec Z.eq_dec (c_str "ACGT") (c_str "ACGT") then 1 else 0).
Proof.
  apply equal_lengths; [reflexivity | reflexivity | unfold INT_MAX; lia].
Defined.

(** C9. On the text "AAAA" and the pattern "AA" both scanners return 3:
    the pattern occurs, with overlaps, at the offsets 0, 1 and 2. *)
Theorem overlapping_occurrences :
  bruteForceSearch (c_str "AAAA") (c_str "AA") 4 2 = 3
  /\ karpRabinSearch (c_str "AAAA") (c_str "AA") 4 2 = 3
  /\ occurrences (c_str "AAAA") (c_str "AA") 4 2 = [0; 1; 2]%nat.
Proof.
  repeat split; vm_compute; reflexivity.
Qed.

(** C10. With an empty pattern [bruteForceSearch] counts every offset of
    a text of length T, T + 1 of them, and there are such inputs on which
    [karpRabinSearch] returns another count: the two scanners agree only
    for patterns of length at least 1. *)
Theorem empty_pattern :
  (forall text pattern T,
      Z.of_nat (length text) = T -> T < INT_MAX ->
      bruteForceSearch text pattern T 0 = T + 1)
  /\ (exists text pattern T,
        Z.of_nat (length text) = T /\ T < INT_MAX
        /\ bruteForceSearch text pattern T 0
           <> karpRabinSearch text pattern T 0).
Proof.
  split.
  - intros text pattern T HT HTint. unfold INT_MAX in HTint.
    rewrite bruteForceSearch_count by (unfold INT_MAX; lia).
    unfold count_occurrences, occurrences.
    rewrite filter_all by reflexivity.
    rewrite length_seq. lia.
  - exists (c_str "A"), [], 1.
    split; [reflexivity |]. split; [unfold INT_MAX; lia |].
    vm_compute; discriminate.
Qed.

Lemma empty_pattern_witness :
  bruteForceSearch (c_str "ACGT") [] 4 0 = 4 + 1.
Proof.
  apply (proj1 empty_pattern); [reflexivity | unfold INT_MAX; lia].
Defined.


(** ** The input layer *)

Section ReadSequence.

(** One test of a byte against a character constant. *)
Ltac byte_case ch c :=
  destruct (Z.eqb_spec ch c) as [-> | ?]; [vm_compute; reflexivity |].

Lemma base_of_spec ch :
  base_of ch
  = if is_base ch
    then [if (97 <=? ch) && (ch <=? 122)
          then int_add (int_sub ch 97) 65 else ch]
    else [].
Proof.
  unfold base_of, is_base.
  byte_case ch 65. byte_case ch 97. byte_case ch 84. byte_case ch 116.
  byte_case ch 67. byte_case ch 99. byte_case ch 71. byte_case ch 103.
  reflexivity.
Qed.

Lemma base_of_dna ch : Forall dna_symbol (base_of ch).
Proof.
  unfold base_of, dna_symbol.
  repeat match goal with
         | |- context [if ?b then _ else _] => destruct b
         end; repeat (apply Forall_cons || apply Forall_nil); cbn beta; lia.
Qed.

Lemma sanitize_dna file : Forall dna_symbol (sanitize file).
Proof.
  unfold sanitize. induction (first_line file) as [| ch l IH]; cbn [flat_map].
  - constructor.
  - apply Forall_app. split; [apply base_of_dna | exact IH].
Qed.

Lemma sanitize_cons ch file :
  sanitize (ch :: file)
  = if (ch =? EOF) || (ch =? 10) then [] else base_of ch ++ sanitize file.
Proof.
  unfold sanitize. cbn [first_line].
  destruct ((ch =? EOF) || (ch =? 10)); reflexivity.
Qed.

(** The reading loop appends the sequence of the file, cut at the room
    left in the buffer. *)
Lemma readSequence_loop_spec maxSize :
  1 <= maxSize <= INT_MAX ->
  forall file sequence len,
    0 <= len <= maxSize - 1 ->
    readSequence_loop file sequence maxSize len
    = (sequence ++ firstn (Z.to_nat (maxSize - 1 - len)) (sanitize file),
       len + Z.of_nat (length (firstn (Z.to_nat (maxSize - 1 - len))
                                      (sanitize file)))).
Proof.
  intros Hmax. unfold INT_MAX in Hmax.
  induction file as [| ch file IH]; intros sequence len Hlen.
  - cbn. rewrite firstn_nil, app_nil_r. cbn. f_equal; lia.
  - cbn [readSequence_loop]. rewrite sanitize_cons.
    rewrite int_sub_id by (unfold INT_MIN, INT_MAX; lia).
    rewrite <- negb_orb.
    destruct ((ch =? EOF) || (ch =? 10)); cbn [negb andb].
    + rewrite firstn_nil, app_nil_r. cbn. f_equal; lia.
    + destruct (len <? maxSize - 1) eqn:Hroom.
      * apply Z.ltb_lt in Hroom.
        rewrite base_of_spec. destruct (is_base ch).
        -- rewrite (int_add_id len 1) by (unfold INT_MIN, INT_MAX; lia).
           rewrite IH by lia.
           replace (Z.to_nat (maxSize - 1 - len))
             with (S (Z.to_nat (maxSize - 1 - (len + 1)))) by lia.
           cbn [app firstn length]. rewrite <- app_assoc. cbn [app].
           f_equal. lia.
        -- rewrite IH by lia. reflexivity.
      * apply Z.ltb_ge in Hroom.
        replace (Z.to_nat (maxSize - 1 - len)) with 0%nat by lia.
        cbn. rewrite app_nil_r. f_equal; lia.
Qed.

Lemma first_line_newline l1 l2 :
  first_line (l1 ++ 10 :: l2) = first_line l1.
Proof.
  induction l1 as [| ch l1 IH]; cbn [app first_line].
  - reflexivity.
  - rewrite IH. reflexivity.
Qed.

Lemma first_line_idem file : first_line (first_line file) = first_line file.
Proof.
  induction file as [| ch file IH]; cbn [first_line]; [reflexivity |].
  destruct ((ch =? EOF) || (ch =? 10)) eqn:H; cbn [first_line];
    [reflexivity |].
  rewrite H, IH. reflexivity.
Qed.

(** A sequence of bases in upper case is its own sequence. *)
Lemma sanitize_fixpoint l : Forall dna_symbol l -> sanitize l = l.
Proof.
  induction 1 as [| c l Hc Hl IH]; [reflexivity |].
  rewrite sanitize_cons, IH.
  unfold dna_symbol in Hc.
  destruct Hc as [-> | [-> | [-> | ->]]]; reflexivity.
Qed.

End ReadSequence.

(** ** More on the scanners *)

Section ScannersMore.

Lemma verifyMatch_loop_01 text pattern pos n :
  forall i, verifyMatch_loop text pattern pos n i = 0
            \/ verifyMatch_loop text pattern pos n i = 1.
Proof.
  induction n as [| n IH]; intros i; cbn [verifyMatch_loop]; [right; reflexivity |].
  destruct (negb _); [left; reflexivity | apply IH].
Qed.

(** Two buffers that agree on their first [n] symbols. *)
Lemma elemwise_ext text text' pattern pattern' T P i :
  (forall k, 0 <= k < T -> char_at text k = char_at text' k) ->
  (forall k, 0 <= k < Z.of_nat P -> char_at pattern k = char_at pattern' k) ->
  0 <= i -> i + Z.of_nat P <= T ->
  elemwise text pattern P i = elemwise text' pattern' P i.
Proof.
  intros Ht Hp Hi HiP. apply eq_true_iff_eq. rewrite !elemwise_true.
  split; intros H k Hk.
  - rewrite <- Ht, <- Hp by lia. apply H, Hk.
  - rewrite Ht, Hp by lia. apply H, Hk.
Qed.

Lemma filter_length_le_seq (f : nat -> bool) i n :
  (length (filter f (seq i n)) <= n)%nat.
Proof.
  pose proof (filter_length_le f (seq i n)) as H.
  rewrite length_seq in H. exact H.
Qed.

(** A hit of the hashed scanner, whatever the two hashes are, is an
    element-wise match. *)
Lemma kr_hit_sound text pattern ph h i P :
  0 <= i -> 0 <= P -> i + P <= INT_MAX ->
  kr_hit text pattern ph h i P = true ->
  elemwise text pattern (Z.to_nat P) i = true.
Proof.
  intros Hi HP HiP. unfold kr_hit.
  rewrite verifyMatch_elemwise by assumption.
  intros H. apply andb_true_iff in H. apply H.
Qed.

(** The rolling loop never counts more than the agreeing offsets, whatever
    hash it carries. *)
Lemma kr_for_bounds text pattern P ph n :
  0 <= P ->
  forall (i : nat) h matches,
    Z.of_nat (S i + n) + P <= INT_MAX + 1 ->
    Z.of_nat (S i + n) <= INT_MAX ->
    0 <= matches -> matches + Z.of_nat n <= INT_MAX ->
    matches <= kr_for text pattern P ph n (Z.of_nat (S i)) h matches
    <= matches
       + Z.of_nat (length (filter (fun k => elemwise text pattern (Z.to_nat P)
                                                     (Z.of_nat k))
                                  (seq (S i) n))).
Proof.
  intros HP. induction n as [| n IH]; intros i h matches HiP Hi Hm Hmn.
  - cbn. lia.
  - unfold INT_MAX in *. cbn [kr_for seq filter].
    rewrite !int_add_id, !int_sub_id by (unfold INT_MIN, INT_MAX; lia).
    replace (Z.of_nat (S i) + 1) with (Z.of_nat (S (S i))) by lia.
    set (h' := rehash _ _ _ _).
    pose proof (kr_hit_sound text pattern ph h' (Z.of_nat (S i)) P) as Hs.
    destruct (kr_hit text pattern ph h' (Z.of_nat (S i)) P).
    + rewrite Hs by (unfold INT_MAX; auto; lia). cbn [length].
      specialize (IH (S i) h' (matches + 1)). lia.
    + specialize (IH (S i) h' matches).
      destruct (elemwise text pattern (Z.to_nat P) (Z.of_nat (S i)));
        cbn [length]; lia.
Qed.

(** The rolling loop reads its buffers below the stated lengths only. *)
Lemma kr_for_ext text text' pattern pattern' T P ph n :
  (forall k, 0 <= k < T -> char_at text k = char_at text' k) ->
  (forall k, 0 <= k < P -> char_at pattern k = char_at pattern' k) ->
  1 <= P -> T <= INT_MAX ->
  forall (i : nat) h matches,
    Z.of_nat (S i + n) + P <= T + 1 ->
    kr_for text pattern P ph n (Z.of_nat (S i)) h matches
    = kr_for text' pattern' P ph n (Z.of_nat (S i)) h matches.
Proof.
  intros Ht Hp HP HT. unfold INT_MAX in HT.
  induction n as [| n IH]; intros i h matches HiP; [reflexivity |].
  cbn [kr_for].
  rewrite !int_add_id, !int_sub_id by (unfold INT_MIN, INT_MAX; lia).
  rewrite <- !Ht by lia.
  set (h' := rehash _ _ _ _).
  replace (Z.of_nat (S i) + 1) with (Z.of_nat (S (S i))) by lia.
  assert (Hhit : kr_hit text pattern ph h' (Z.of_nat (S i)) P
                 = kr_hit text' pattern' ph h' (Z.of_nat (S i)) P).
  { unfold kr_hit.
    rewrite !verifyMatch_elemwise by (unfold INT_MAX; lia).
    f_equal. apply (elemwise_ext _ _ _ _ T); auto; try lia.
    intros k Hk. apply Hp. lia. }
  rewrite Hhit. destruct (kr_hit text' pattern' ph h' (Z.of_nat (S i)) P);
    apply IH; lia.
Qed.

Lemma karpRabinSearch_ext text text' pattern pattern' T P :
  (forall k, 0 <= k < T -> char_at text k = char_at text' k) ->
  (forall k, 0 <= k < P -> char_at pattern k = char_at pattern' k) ->
  1 <= P -> 0 <= T <= INT_MAX ->
  karpRabinSearch text pattern T P = karpRabinSearch text' pattern' T P.
Proof.
  intros Ht Hp HP HT. unfold karpRabinSearch.
  destruct (P >? T) eqn:Hgt; [reflexivity |].
  assert (HPT : P <= T) by (rewrite Z.gtb_ltb in Hgt; apply Z.ltb_ge, Hgt).
  unfold INT_MAX in HT.
  rewrite int_sub_id by (unfold INT_MIN, INT_MAX; lia).
  assert (Hph : calculateHash pattern P = calculateHash pattern' P).
  { unfold calculateHash. apply calculateHash_loop_ext.
    intros k Hk. apply Hp. lia. }
  assert (Hth : calculateHash text P = calculateHash text' P).
  { unfold calculateHash. apply calculateHash_loop_ext.
    intros k Hk. apply Ht. lia. }
  rewrite <- Hph, <- Hth.
  assert (Hhit : kr_hit text pattern (calculateHash pattern P)
                        (calculateHash text P) 0 P
                 = kr_hit text' pattern' (calculateHash pattern P)
                          (calculateHash text P) 0 P).
  { unfold kr_hit.
    rewrite !verifyMatch_elemwise by (unfold INT_MAX; lia).
    f_equal. apply (elemwise_ext _ _ _ _ T); auto; try lia.
    intros k Hk. apply Hp. lia. }
  rewrite Hhit. change 1 with (Z.of_nat 1).
  apply (kr_for_ext _ _ _ _ T); auto; unfold INT_MAX; lia.
Qed.

Lemma bruteForceSearch_ext text text' pattern pattern' T P :
  (forall k, 0 <= k < T -> char_at text k = char_at text' k) ->
  (forall k, 0 <= k < P -> char_at pattern k = char_at pattern' k) ->
  1 <= P <= INT_MAX -> 0 <= T <= INT_MAX ->
  bruteForceSearch text pattern T P = bruteForceSearch text' pattern' T P.
Proof.
  intros Ht Hp HP HT. unfold bruteForceSearch. unfold INT_MAX in *.
  rewrite int_sub_id by (unfold INT_MIN, INT_MAX; lia).
  change 0 with (Z.of_nat 0) at 1 3.
  rewrite !bf_for_spec by (unfold INT_MAX; lia).
  do 3 f_equal. apply filter_ext_in. intros k Hk. apply in_seq in Hk.
  apply (elemwise_ext _ _ _ _ T); auto; try lia.
  intros j Hj. apply Hp. lia.
Qed.

Lemma char_at_app_l (buf tail : list Z) k :
  0 <= k < Z.of_nat (length buf) -> char_at (buf ++ tail) k = char_at buf k.
Proof.
  intros Hk. unfold char_at. apply app_nth1. lia.
Qed.

Lemma horner_app_l u w n :
  (n <= length u)%nat -> horner (u ++ w) n = horner u n.
Proof.
  induction n as [| n IH]; intros Hn; [reflexivity |].
  cbn [horner]. rewrite IH by lia.
  rewrite char_at_app_l by lia. reflexivity.
Qed.

(** The weighted sum of a buffer made of two parts. *)
Lemma horner_app u w k :
  horner (u ++ w) (length u + k)
  = 2 ^ Z.of_nat k * horner u (length u) + horner w k.
Proof.
  induction k as [| k IH].
  - rewrite Nat.add_0_r, horner_app_l by lia. cbn [horner].
    rewrite Z.pow_0_r. lia.
  - rewrite Nat.add_succ_r. cbn [horner]. rewrite IH.
    unfold char_at. rewrite !Nat2Z.id, app_nth2 by lia.
    replace (length u + k - length u)%nat with k by lia.
    rewrite Nat2Z.inj_succ, Z.pow_succ_r by lia. lia.
Qed.

End ScannersMore.

Section ScannerProperties.

Lemma count_occurrences_bounds text pattern T P :
  0 <= count_occurrences text pattern T P <= Z.max 0 (T - P + 1).
Proof.
  unfold count_occurrences, occurrences.
  pose proof (filter_length_le_seq (occurs_at text pattern (Z.to_nat P)) 0
                (Z.to_nat (T - P + 1))).
  lia.
Qed.

(** The hashed scanner, on any symbols: at most the occurrences. *)
Lemma karpRabinSearch_le_count text pattern T P :
  0 <= T <= Z.of_nat (length text) -> T <= INT_MAX ->
  1 <= P <= Z.of_nat (length pattern) ->
  0 <= karpRabinSearch text pattern T P <= count_occurrences text pattern T P.
Proof.
  intros HT HTint HP. unfold karpRabinSearch.
  destruct (P >? T) eqn:Hgt.
  - pose proof (count_occurrences_bounds text pattern T P). lia.
  - assert (HPT : P <= T) by (rewrite Z.gtb_ltb in Hgt; apply Z.ltb_ge, Hgt).
    unfold count_occurrences.
    rewrite occurrences_elemwise by lia.
    unfold INT_MAX in *.
    rewrite int_sub_id, int_add_id by (unfold INT_MIN, INT_MAX; lia).
    replace (Z.to_nat (T - P + 1)) with (S (Z.to_nat (T - P))) by lia.
    cbn [seq filter]. change (Z.of_nat 0) with 0.
    set (ph := calculateHash pattern P). set (h := calculateHash text P).
    pose proof (kr_hit_sound text pattern ph h 0 P) as Hs.
    pose proof (kr_for_bounds text pattern P ph (Z.to_nat (T - P))
                  ltac:(lia) 0%nat h) as Hb.
    change (Z.of_nat 1) with 1 in Hb.
    destruct (kr_hit text pattern ph h 0 P).
    + rewrite Hs by (unfold INT_MAX; auto; lia). cbn [length].
      specialize (Hb (0 + 1)). unfold INT_MAX in Hb. lia.
    + specialize (Hb 0). unfold INT_MAX in Hb.
      destruct (elemwise text pattern (Z.to_nat P) 0); cbn [length]; lia.
Qed.

Lemma count_occurrences_distinct a b :
  length a = length b -> a <> b ->
  count_occurrences a b (Z.of_nat (length a)) (Z.of_nat (length a)) = 0.
Proof.
  intros Hlen Hne. unfold count_occurrences, occurrences.
  replace (Z.to_nat (Z.of_nat (length a) - Z.of_nat (length a) + 1))
    with 1%nat by lia.
  rewrite Nat2Z.id. cbn [seq filter].
  rewrite occurs_at_whole by assumption.
  destruct (list_eq_dec Z.eq_dec a b); [contradiction | reflexivity].
Qed.

(** X1. [verifyMatch] returns 1 when [text[pos .. pos+P)] equals the
    pattern element-wise and 0 otherwise. *)
Theorem verifyMatch_decides text pattern pos P :
  0 <= pos -> 0 <= P ->
  pos + P <= Z.of_nat (length text) -> P = Z.of_nat (length pattern) ->
  pos + P <= INT_MAX ->
  verifyMatch text pattern pos P
  = if list_eq_dec Z.eq_dec (window text (Z.to_nat pos) (Z.to_nat P)) pattern
    then 1 else 0.
Proof.
  intros Hpos HP Htext Hpat Hint.
  pose proof (verifyMatch_elemwise text pattern pos P Hpos HP Hint) as He.
  replace pos with (Z.of_nat (Z.to_nat pos)) in He at 2 by lia.
  rewrite elemwise_occurs_at in He by lia.
  unfold occurs_at in He.
  replace (firstn (Z.to_nat P) pattern) with pattern in He
    by (symmetry; apply firstn_all2; lia).
  unfold verifyMatch in *.
  destruct (verifyMatch_loop_01 text pattern pos (Z.to_nat P) 0) as [H | H];
    rewrite H in *; cbn in He;
    destruct (list_eq_dec Z.eq_dec _ pattern); try reflexivity; discriminate.
Qed.

Lemma verifyMatch_decides_witness :
  verifyMatch (c_str "GATTACA") (c_str "TTA") 2 3
  = if list_eq_dec Z.eq_dec (window (c_str "GATTACA") (Z.to_nat 2) (Z.to_nat 3))
                   (c_str "TTA")
    then 1 else 0.
Proof.
  apply verifyMatch_decides; cbn; unfold INT_MAX; lia.
Defined.

(** X2. Whatever the symbols, and so whatever the hashes, the hashed
    scanner returns at most the number of occurrences of the pattern: a
    collision of hashes is never counted. *)
Theorem karpRabinSearch_no_false_positive text pattern T P :
  Z.of_nat (length text) = T -> Z.of_nat (length pattern) = P ->
  T <= INT_MAX -> 1 <= P ->
  0 <= karpRabinSearch text pattern T P <= count_occurrences text pattern T P.
Proof.
  intros HT HP HTint HP1. apply karpRabinSearch_le_count; lia.
Qed.

Lemma karpRabinSearch_no_false_positive_witness :
  0 <= karpRabinSearch [65; -1; -1] [-1; -1] 3 2
  <= count_occurrences [65; -1; -1] [-1; -1] 3 2.
Proof.
  apply karpRabinSearch_no_false_positive;
    [reflexivity | reflexivity | unfold INT_MAX; lia | lia].
Defined.

(** X3. On a text whose symbols have non-negative character codes the
    hashed scanner returns the number of occurrences of the pattern. *)
Theorem karpRabinSearch_counts_occurrences text pattern T P :
  Z.of_nat (length text) = T -> Z.of_nat (length pattern) = P ->
  T <= INT_MAX -> 1 <= P <= INT_MAX ->
  nonneg_chars text ->
  karpRabinSearch text pattern T P = count_occurrences text pattern T P.
Proof.
  intros HT HP HTint HPint Htext.
  apply karpRabinSearch_count; auto; lia.
Qed.

Lemma karpRabinSearch_counts_occurrences_witness :
  karpRabinSearch (c_str "ATCGATCGATCG") (c_str "ATCG") 12 4
  = count_occurrences (c_str "ATCGATCGATCG") (c_str "ATCG") 12 4.
Proof.
  apply karpRabinSearch_counts_occurrences;
    [reflexivity | reflexivity | unfold INT_MAX; lia | unfold INT_MAX; lia
    | chars].
Defined.

(** X4. The count of the exact scanner lies between 0 and the number of
    candidate offsets, [T - P + 1]; that of the hashed scanner lies
    between 0 and the count of the exact scanner. *)
Theorem match_count_bounds text pattern T P :
  Z.of_nat (length text) = T -> Z.of_nat (length pattern) = P ->
  T <= INT_MAX -> 1 <= P <= T ->
  0 <= karpRabinSearch text pattern T P
    <= bruteForceSearch text pattern T P
  /\ bruteForceSearch text pattern T P <= T - P + 1.
Proof.
  intros HT HP HTint HPT. unfold INT_MAX in HTint.
  rewrite bruteForceSearch_count by (unfold INT_MAX; lia).
  pose proof (karpRabinSearch_le_count text pattern T P).
  pose proof (count_occurrences_bounds text pattern T P).
  unfold INT_MAX in *. lia.
Qed.

Lemma match_count_bounds_witness :
  0 <= karpRabinSearch (c_str "AAAA") (c_str "AA") 4 2
    <= bruteForceSearch (c_str "AAAA") (c_str "AA") 4 2
  /\ bruteForceSearch (c_str "AAAA") (c_str "AA") 4 2 <= 4 - 2 + 1.
Proof.
  apply match_count_bounds;
    [reflexivity | reflexivity | unfold INT_MAX; lia | lia].
Defined.

(** X5. Both scanners read their buffers below the stated lengths only:
    what the buffers hold after the text and after the pattern (the
    terminating 0, the rest of the allocation) does not change the
    count. *)
Theorem scanners_ignore_slack text pattern slack1 slack2 T P :
  Z.of_nat (length text) = T -> Z.of_nat (length pattern) = P ->
  T <= INT_MAX -> 1 <= P <= INT_MAX ->
  bruteForceSearch (text ++ slack1) (pattern ++ slack2) T P
  = bruteForceSearch text pattern T P
  /\ karpRabinSearch (text ++ slack1) (pattern ++ slack2) T P
     = karpRabinSearch text pattern T P.
Proof.
  intros HT HP HTint HPint. split.
  - apply bruteForceSearch_ext; try lia;
      intros k Hk; apply char_at_app_l; lia.
  - apply karpRabinSearch_ext; try lia;
      intros k Hk; apply char_at_app_l; lia.
Qed.

Lemma scanners_ignore_slack_witness :
  bruteForceSearch (c_str "AAAA" ++ [0; -7]) (c_str "AA" ++ [0]) 4 2
  = bruteForceSearch (c_str "AAAA") (c_str "AA") 4 2
  /\ karpRabinSearch (c_str "AAAA" ++ [0; -7]) (c_str "AA" ++ [0]) 4 2
     = karpRabinSearch (c_str "AAAA") (c_str "AA") 4 2.
Proof.
  apply scanners_ignore_slack;
    [reflexivity | reflexivity | unfold INT_MAX; lia | unfold INT_MAX; lia].
Defined.

(** X6. The hash collides on DNA sequences: replacing "AG" by "CC"
    anywhere in a window leaves [calculateHash] unchanged. On two such
    sequences, one as the text and one as the pattern, the hashed scanner
    still returns 0. *)
Theorem hash_collision_not_counted u v L :
  Forall dna_symbol u -> Forall dna_symbol v ->
  L = Z.of_nat (length u + 2 + length v) -> L <= INT_MAX ->
  calculateHash (u ++ c_str "AG" ++ v) L
  = calculateHash (u ++ c_str "CC" ++ v) L
  /\ u ++ c_str "AG" ++ v <> u ++ c_str "CC" ++ v
  /\ karpRabinSearch (u ++ c_str "AG" ++ v) (u ++ c_str "CC" ++ v) L L = 0.
Proof.
  intros Hu Hv HL Hint.
  assert (Hne : u ++ c_str "AG" ++ v <> u ++ c_str "CC" ++ v).
  { intros H. apply app_inv_head in H. discriminate H. }
  assert (Hlen : forall w, length w = 2%nat ->
                 Z.of_nat (length (u ++ w ++ v)) = L).
  { intros w Hw. rewrite !length_app, Hw. lia. }
  assert (Hnn : forall w, Forall dna_symbol w -> nonneg_chars (u ++ w ++ v)).
  { intros w Hw. apply dna_nonneg_chars.
    apply Forall_app; split; [assumption |].
    apply Forall_app; split; assumption. }
  assert (Hh : forall w, length w = 2%nat ->
               horner (u ++ w ++ v) (Z.to_nat L)
               = 2 ^ Z.of_nat (2 + length v) * horner u (length u)
                 + (2 ^ Z.of_nat (length v) * horner w 2
                    + horner v (length v))).
  { intros w Hw.
    replace (Z.to_nat L) with (length u + (2 + length v))%nat by lia.
    rewrite horner_app.
    pose proof (horner_app w v (length v)) as Hwv. rewrite Hw in Hwv.
    rewrite Hwv. reflexivity. }
  split; [| split; [exact Hne |]].
  - rewrite !calculateHash_horner
      by (apply Hnn; cbn; repeat constructor; unfold dna_symbol; lia).
    rewrite !Hh by reflexivity. reflexivity.
  - pose proof (karpRabinSearch_le_count (u ++ c_str "AG" ++ v)
                  (u ++ c_str "CC" ++ v) L L) as Hle.
    rewrite !Hlen in Hle by reflexivity.
    pose proof (count_occurrences_distinct (u ++ c_str "AG" ++ v)
                  (u ++ c_str "CC" ++ v)) as Hc.
    rewrite !Hlen in Hc by reflexivity.
    rewrite Hc in Hle; [lia | | exact Hne].
    apply Nat2Z.inj. rewrite !Hlen by reflexivity. reflexivity.
Qed.

Lemma hash_collision_not_counted_witness :
  calculateHash (c_str "T" ++ c_str "AG" ++ c_str "GA") 5
  = calculateHash (c_str "T" ++ c_str "CC" ++ c_str "GA") 5
  /\ c_str "T" ++ c_str "AG" ++ c_str "GA"
     <> c_str "T" ++ c_str "CC" ++ c_str "GA"
  /\ karpRabinSearch (c_str "T" ++ c_str "AG" ++ c_str "GA")
                     (c_str "T" ++ c_str "CC" ++ c_str "GA") 5 5 = 0.
Proof.
  apply hash_collision_not_counted;
    [ cbn; repeat constructor; unfold dna_symbol; lia
    | cbn; repeat constructor; unfold dna_symbol; lia
    | reflexivity | unfold INT_MAX; lia ].
Defined.

End ScannerProperties.

(** ** Reading a sequence *)

Section ReadSequenceProperties.

Lemma Forall_firstn {A} (Q : A -> Prop) n (l : list A) :
  Forall Q l -> Forall Q (firstn n l).
Proof.
  intros H. revert n. induction H as [| x l Hx Hl IH]; intros [| n];
    cbn [firstn]; constructor; auto.
Qed.

Lemma readSequence_some bytes filename maxSize :
  1 <= maxSize <= INT_MAX ->
  readSequence (Some bytes) filename maxSize
  = (if maxSize - 1 <=? Z.of_nat (length (sanitize bytes))
     then truncation_warning else [],
     firstn (Z.to_nat (maxSize - 1)) (sanitize bytes) ++ [0],
     Z.min (Z.of_nat (length (sanitize bytes))) (maxSize - 1)).
Proof.
  intros Hmax. unfold readSequence.
  rewrite (readSequence_loop_spec maxSize Hmax) by lia.
  unfold INT_MAX in Hmax.
  rewrite int_sub_id by (unfold INT_MIN, INT_MAX; lia).
  cbn [app]. rewrite Z.sub_0_r, length_firstn, Z.add_0_l.
  set (n := length (sanitize bytes)).
  replace (Z.of_nat (Nat.min (Z.to_nat (maxSize - 1)) n))
    with (Z.min (Z.of_nat n) (maxSize - 1)) by lia.
  destruct (maxSize - 1 <=? Z.of_nat n) eqn:Hle.
  - apply Z.leb_le in Hle.
    replace (Z.min (Z.of_nat n) (maxSize - 1) =? maxSize - 1) with true
      by (symmetry; apply Z.eqb_eq; lia).
    reflexivity.
  - apply Z.leb_gt in Hle.
    replace (Z.min (Z.of_nat n) (maxSize - 1) =? maxSize - 1) with false
      by (symmetry; apply Z.eqb_neq; lia).
    reflexivity.
Qed.

Lemma readSequence_loop_newline l1 l2 :
  forall sequence maxSize len,
    readSequence_loop (l1 ++ 10 :: l2) sequence maxSize len
    = readSequence_loop l1 sequence maxSize len.
Proof.
  induction l1 as [| ch l1 IH]; intros sequence maxSize len.
  - reflexivity.
  - cbn [app readSequence_loop].
    destruct (negb (ch =? EOF) && negb (ch =? 10)
              && (len <? int_sub maxSize 1)); [| reflexivity].
    destruct (is_base ch); apply IH.
Qed.

Lemma base_of_other ch :
  ch <> 65 -> ch <> 97 -> ch <> 84 -> ch <> 116 ->
  ch <> 67 -> ch <> 99 -> ch <> 71 -> ch <> 103 ->
  base_of ch = [].
Proof.
  intros. unfold base_of.
  rewrite !(proj2 (Z.eqb_neq _ _)) by assumption. reflexivity.
Qed.

Lemma base_of_to_upper ch : base_of (to_upper ch) = base_of ch.
Proof.
  destruct (Z.eq_dec ch 65) as [-> | ?]; [reflexivity |].
  destruct (Z.eq_dec ch 97) as [-> | ?]; [reflexivity |].
  destruct (Z.eq_dec ch 84) as [-> | ?]; [reflexivity |].
  destruct (Z.eq_dec ch 116) as [-> | ?]; [reflexivity |].
  destruct (Z.eq_dec ch 67) as [-> | ?]; [reflexivity |].
  destruct (Z.eq_dec ch 99) as [-> | ?]; [reflexivity |].
  destruct (Z.eq_dec ch 71) as [-> | ?]; [reflexivity |].
  destruct (Z.eq_dec ch 103) as [-> | ?]; [reflexivity |].
  rewrite (base_of_other ch) by assumption.
  unfold to_upper.
  destruct ((97 <=? ch) && (ch <=? 122)) eqn:Hrange.
  - apply andb_true_iff in Hrange as [H1 H2].
    apply Z.leb_le in H1, H2. apply base_of_other; lia.
  - apply base_of_other; assumption.
Qed.

Lemma sanitize_to_upper bytes : sanitize (map to_upper bytes) = sanitize bytes.
Proof.
  induction bytes as [| ch bytes IH]; [reflexivity |].
  cbn [map]. rewrite !sanitize_cons, IH, base_of_to_upper.
  assert (Hend : (to_upper ch =? EOF) || (to_upper ch =? 10)
                 = (ch =? EOF) || (ch =? 10)).
  { unfold to_upper, EOF.
    destruct ((97 <=? ch) && (ch <=? 122)) eqn:Hrange; [| reflexivity].
    apply andb_true_iff in Hrange as [H1 H2]. apply Z.leb_le in H1, H2.
    rewrite !(proj2 (Z.eqb_neq _ _)) by lia. reflexivity. }
  rewrite Hend. reflexivity.
Qed.

(** X7. [readSequence] on a file that opens stores the bases of its
    first line, in upper case and in order, up to [maxSize - 1] of them,
    then a terminating 0; it returns their number and prints the warning
    exactly when the line holds [maxSize - 1] bases or more. *)
Theorem readSequence_reads_sequence bytes filename maxSize :
  1 <= maxSize <= INT_MAX ->
  readSequence (Some bytes) filename maxSize
  = (if maxSize - 1 <=? Z.of_nat (length (sanitize bytes))
     then truncation_warning else [],
     firstn (Z.to_nat (maxSize - 1)) (sanitize bytes) ++ [0],
     Z.min (Z.of_nat (length (sanitize bytes))) (maxSize - 1)).
Proof.
  apply readSequence_some.
Qed.

Lemma readSequence_reads_sequence_witness :
  readSequence (Some (c_str "acgtXACGT acgt")) "f" 6
  = (if 6 - 1 <=? Z.of_nat (length (sanitize (c_str "acgtXACGT acgt")))
     then truncation_warning else [],
     firstn (Z.to_nat (6 - 1)) (sanitize (c_str "acgtXACGT acgt")) ++ [0],
     Z.min (Z.of_nat (length (sanitize (c_str "acgtXACGT acgt")))) (6 - 1)).
Proof.
  apply readSequence_reads_sequence. unfold INT_MAX; lia.
Defined.

(** X8. The buffer [readSequence] leaves: the returned length is between
    0 and [maxSize - 1], the cells written are the [length] symbols and the
    terminating 0 (at most [maxSize] cells), and every symbol is one of
    'A', 'T', 'C', 'G'. *)
Theorem readSequence_buffer bytes filename maxSize out sequence len :
  1 <= maxSize <= INT_MAX ->
  readSequence (Some bytes) filename maxSize = (out, sequence, len) ->
  0 <= len <= maxSize - 1
  /\ Z.of_nat (length sequence) = len + 1
  /\ char_at sequence len = 0
  /\ Forall dna_symbol (firstn (Z.to_nat len) sequence).
Proof.
  intros Hmax Hread. rewrite readSequence_some in Hread by assumption.
  injection Hread as _ Hseq Hlen.
  set (kept := firstn (Z.to_nat (maxSize - 1)) (sanitize bytes)) in *.
  assert (Hk : Z.of_nat (length kept) = len)
    by (unfold kept; rewrite length_firstn; lia).
  subst sequence. repeat split; try lia.
  - rewrite length_app. cbn [length]. lia.
  - unfold char_at. rewrite <- Hk, Nat2Z.id, app_nth2 by lia.
    rewrite Nat.sub_diag. reflexivity.
  - rewrite <- Hk, Nat2Z.id, firstn_app, Nat.sub_diag, firstn_all.
    cbn [firstn]. rewrite app_nil_r.
    unfold kept. apply Forall_firstn, sanitize_dna.
Qed.

Lemma readSequence_buffer_witness :
  0 <= 5 <= 6 - 1
  /\ Z.of_nat (length [65; 67; 71; 84; 65; 0]) = 5 + 1
  /\ char_at [65; 67; 71; 84; 65; 0] 5 = 0
  /\ Forall dna_symbol (firstn (Z.to_nat 5) [65; 67; 71; 84; 65; 0]).
Proof.
  apply (readSequence_buffer (c_str "acgtXACGT acgt") "f" 6
           truncation_warning);
    [unfold INT_MAX; lia | reflexivity].
Defined.

(** X9. [readSequence] returns -1 exactly when the file cannot be
    opened. *)
Theorem readSequence_error_iff file filename maxSize :
  1 <= maxSize <= INT_MAX ->
  (snd (readSequence file filename maxSize) = -1 <-> file = None).
Proof.
  intros Hmax. destruct file as [bytes |].
  - rewrite readSequence_some by assumption. cbn [snd].
    split; [lia | discriminate].
  - cbn. split; reflexivity.
Qed.

Lemma readSequence_error_iff_witness :
  snd (readSequence None "missing.txt" N) = -1 <-> @None (list Z) = None.
Proof.
  apply readSequence_error_iff. unfold N, INT_MAX; lia.
Defined.

(** X10. [readSequence] reads the first line only: what follows the
    first newline of the file changes nothing. *)
Theorem readSequence_first_line_only line rest filename maxSize :
  readSequence (Some (line ++ 10 :: rest)) filename maxSize
  = readSequence (Some line) filename maxSize.
Proof.
  unfold readSequence. rewrite readSequence_loop_newline. reflexivity.
Qed.

(** X11. [readSequence] does not tell lower case from upper case: a file
    and its upper-case copy are read alike. *)
Theorem readSequence_case_insensitive bytes filename maxSize :
  1 <= maxSize <= INT_MAX ->
  readSequence (Some (map to_upper bytes)) filename maxSize
  = readSequence (Some bytes) filename maxSize.
Proof.
  intros Hmax. rewrite !readSequence_some by assumption.
  rewrite sanitize_to_upper. reflexivity.
Qed.

Lemma readSequence_case_insensitive_witness :
  readSequence (Some (map to_upper (c_str "acgtnACGT"))) "f" N
  = readSequence (Some (c_str "acgtnACGT")) "f" N.
Proof.
  apply readSequence_case_insensitive. unfold N, INT_MAX; lia.
Defined.

(** X12. Reading back what was read: a file that holds the sequence
    [readSequence] stored is read as that same sequence, with the same
    length and the same warning. *)
Theorem readSequence_idempotent bytes filename maxSize out sequence len :
  1 <= maxSize <= INT_MAX ->
  readSequence (Some bytes) filename maxSize = (out, sequence, len) ->
  readSequence (Some (firstn (Z.to_nat len) sequence)) filename maxSize
  = (out, sequence, len).
Proof.
  intros Hmax Hread. rewrite readSequence_some in Hread by assumption.
  injection Hread as Hout Hseq Hlen.
  set (kept := firstn (Z.to_nat (maxSize - 1)) (sanitize bytes)) in *.
  assert (Hk : Z.of_nat (length kept) = len)
    by (unfold kept; rewrite length_firstn; lia).
  assert (Hfirst : firstn (Z.to_nat len) sequence = kept).
  { subst sequence. rewrite <- Hk, Nat2Z.id, firstn_app, Nat.sub_diag.
    rewrite firstn_all. cbn [firstn]. apply app_nil_r. }
  assert (Hsan : sanitize kept = kept)
    by (apply sanitize_fixpoint; unfold kept;
        apply Forall_firstn, sanitize_dna).
  rewrite Hfirst, readSequence_some, Hsan by assumption.
  assert (Hkk : firstn (Z.to_nat (maxSize - 1)) kept = kept)
    by (apply firstn_all2; unfold kept; rewrite length_firstn; lia).
  rewrite Hkk, Hseq. f_equal; [f_equal |]; [| lia].
  rewrite <- Hout.
  destruct (maxSize - 1 <=? Z.of_nat (length (sanitize bytes))) eqn:H1;
    destruct (maxSize - 1 <=? Z.of_nat (length kept)) eqn:H2;
    try reflexivity; exfalso;
    [apply Z.leb_le in H1; apply Z.leb_gt in H2
    | apply Z.leb_gt in H1; apply Z.leb_le in H2]; lia.
Qed.

Lemma readSequence_idempotent_witness :
  readSequence (Some (firstn (Z.to_nat 5) [65; 67; 71; 84; 65; 0])) "f" 6
  = (truncation_warning, [65; 67; 71; 84; 65; 0], 5).
Proof.
  apply (readSequence_idempotent (c_str "acgtXACGT acgt"));
    [unfold INT_MAX; lia | reflexivity].
Defined.

End ReadSequenceProperties.

(** ** The program as a whole *)

Section Main.

(** The scanners on the buffers [readSequence] fills. *)
Lemma scanners_after_read s1 s2 :
  Forall dna_symbol s1 ->
  Z.of_nat (length s1) <= INT_MAX ->
  1 <= Z.of_nat (length s2) <= INT_MAX ->
  bruteForceSearch (s1 ++ [0]) (s2 ++ [0])
                   (Z.of_nat (length s1)) (Z.of_nat (length s2))
  = count_occurrences s1 s2 (Z.of_nat (length s1)) (Z.of_nat (length s2))
  /\ karpRabinSearch (s1 ++ [0]) (s2 ++ [0])
                     (Z.of_nat (length s1)) (Z.of_nat (length s2))
     = count_occurrences s1 s2 (Z.of_nat (length s1)) (Z.of_nat (length s2)).
Proof.
  intros Hs1 Hl1 Hl2. split.
  - rewrite (bruteForceSearch_ext (s1 ++ [0]) s1 (s2 ++ [0]) s2)
      by (try lia; intros k Hk; apply char_at_app_l; lia).
    apply bruteForceSearch_count; unfold INT_MAX in *; lia.
  - rewrite (karpRabinSearch_ext (s1 ++ [0]) s1 (s2 ++ [0]) s2)
      by (try lia; intros k Hk; apply char_at_app_l; lia).
    apply karpRabinSearch_count; try lia.
    apply dna_nonneg_chars, Hs1.
Qed.

(** [main] once its arguments are accepted and its buffers allocated. *)
Lemma main_behaviour prog alg d p fs :
  alg = "-bf"%string \/ alg = "-kr"%string ->
  main [prog; alg; d; p] fs true true
  = match fs d with
    | None =>
        ([("Error: Cannot open file " ++ d ++ newline)%string;
          ("Error: Failed to read DNA sequence file" ++ newline)%string], 1)
    | Some dna =>
        if N - 1 <=? Z.of_nat (length (sanitize dna)) then
          (truncation_warning
             ++ [("Error: DNA sequence too large" ++ newline)%string], 1)
        else
          match fs p with
          | None =>
              ([("Error: Cannot open file " ++ p ++ newline)%string;
                ("Error: Failed to read pattern file" ++ newline)%string], 1)
          | Some pat =>
              if N - 1 <=? Z.of_nat (length (sanitize pat)) then
                (truncation_warning
                   ++ [("Error: Pattern sequence too large" ++ newline)%string],
                 1)
              else if Z.of_nat (length (sanitize pat)) =? 0 then
                ([("Error: Empty pattern" ++ newline)%string], 1)
              else
                ([found_line
                    (count_occurrences (sanitize dna) (sanitize pat)
                       (Z.of_nat (length (sanitize dna)))
                       (Z.of_nat (length (sanitize pat))))], 0)
          end
    end.
Proof.
  intros Halg.
  assert (HN : 1 <= N <= INT_MAX) by (unfold N, INT_MAX; lia).
  assert (HN1 : int_sub N 1 = N - 1) by reflexivity.
  unfold main. cbn [length nth].
  change (negb (Z.of_nat 4 =? 4)) with false. cbv iota.
  assert (Hvalid : negb (alg =? "-bf")%string && negb (alg =? "-kr")%string
                   = false) by (destruct Halg; subst alg; reflexivity).
  rewrite Hvalid. cbn [negb orb].
  destruct (fs d) as [dna |]; [| reflexivity].
  rewrite readSequence_some by assumption. cbv beta iota zeta.
  rewrite HN1.
  set (s1 := sanitize dna).
  destruct (N - 1 <=? Z.of_nat (length s1)) eqn:Hbig1.
  { apply Z.leb_le in Hbig1.
    replace (Z.min (Z.of_nat (length s1)) (N - 1)) with (N - 1) by lia.
    reflexivity. }
  apply Z.leb_gt in Hbig1.
  replace (Z.min (Z.of_nat (length s1)) (N - 1)) with (Z.of_nat (length s1))
    by lia.
  replace (Z.of_nat (length s1) =? -1) with false
    by (symmetry; apply Z.eqb_neq; lia).
  replace (Z.of_nat (length s1) >=? N - 1) with false
    by (symmetry; rewrite Z.geb_leb; apply Z.leb_gt; lia).
  replace (firstn (Z.to_nat (N - 1)) s1) with s1
    by (symmetry; apply firstn_all2; lia).
  destruct (fs p) as [pat |]; [| reflexivity].
  rewrite readSequence_some by assumption. cbv beta iota zeta.
  set (s2 := sanitize pat).
  destruct (N - 1 <=? Z.of_nat (length s2)) eqn:Hbig2.
  { apply Z.leb_le in Hbig2.
    replace (Z.min (Z.of_nat (length s2)) (N - 1)) with (N - 1) by lia.
    reflexivity. }
  apply Z.leb_gt in Hbig2.
  replace (Z.min (Z.of_nat (length s2)) (N - 1)) with (Z.of_nat (length s2))
    by lia.
  replace (Z.of_nat (length s2) =? -1) with false
    by (symmetry; apply Z.eqb_neq; lia).
  replace (Z.of_nat (length s2) >=? N - 1) with false
    by (symmetry; rewrite Z.geb_leb; apply Z.leb_gt; lia).
  replace (firstn (Z.to_nat (N - 1)) s2) with s2
    by (symmetry; apply firstn_all2; lia).
  destruct (Z.of_nat (length s2) =? 0) eqn:Hempty; [reflexivity |].
  apply Z.eqb_neq in Hempty.
  destruct (scanners_after_read s1 s2) as [Hbf Hkr];
    try (unfold N, INT_MAX in *; lia);
    try (apply sanitize_dna).
  cbn [app]. do 2 f_equal.
  destruct Halg; subst alg.
  - change ("-bf" =? "-bf")%string with true. cbv iota.
    rewrite Hbf. reflexivity.
  - change ("-kr" =? "-bf")%string with false.
    change ("-kr" =? "-kr")%string with true. cbv iota.
    rewrite Hkr. reflexivity.
Qed.

(** [main] when a buffer cannot be allocated. *)
Lemma main_no_memory prog alg d p fs dna_alloc pat_alloc :
  alg = "-bf"%string \/ alg = "-kr"%string ->
  dna_alloc && pat_alloc = false ->
  main [prog; alg; d; p] fs dna_alloc pat_alloc
  = ([("Error: Memory allocation failed" ++ newline)%string], 1).
Proof.
  intros Halg Halloc. unfold main. cbn [length nth].
  change (negb (Z.of_nat 4 =? 4)) with false. cbv iota.
  assert (Hvalid : negb (alg =? "-bf")%string && negb (alg =? "-kr")%string
                   = false) by (destruct Halg; subst alg; reflexivity).
  rewrite Hvalid.
  destruct dna_alloc, pat_alloc; try discriminate; reflexivity.
Qed.

(** X13. A successful run: with an accepted algorithm, two files that
    open, fewer than [N - 1] bases on the first line of each and at least
    one base in the pattern, [main] prints one line, the number of
    occurrences of the pattern sequence in the DNA sequence, and exits
    with status 0. *)
Theorem main_reports_occurrences prog alg d p fs dna pat :
  alg = "-bf"%string \/ alg = "-kr"%string ->
  fs d = Some dna -> fs p = Some pat ->
  Z.of_nat (length (sanitize dna)) < N - 1 ->
  1 <= Z.of_nat (length (sanitize pat)) < N - 1 ->
  main [prog; alg; d; p] fs true true
  = ([found_line (count_occurrences (sanitize dna) (sanitize pat)
                    (Z.of_nat (length (sanitize dna)))
                    (Z.of_nat (length (sanitize pat))))], 0).
Proof.
  intros Halg Hd Hp Hdna Hpat.
  rewrite main_behaviour, Hd, Hp by assumption.
  replace (N - 1 <=? Z.of_nat (length (sanitize dna))) with false
    by (symmetry; apply Z.leb_gt; lia).
  replace (N - 1 <=? Z.of_nat (length (sanitize pat))) with false
    by (symmetry; apply Z.leb_gt; lia).
  replace (Z.of_nat (length (sanitize pat)) =? 0) with false
    by (symmetry; apply Z.eqb_neq; lia).
  reflexivity.
Qed.

Lemma main_reports_occurrences_witness :
  main ["prog"; "-kr"; "dna.txt"; "pat.txt"]%string
       (fun name => if (name =? "dna.txt")%string
                    then Some (c_str "atcgATCGxatcg")
                    else Some (c_str "ATCG"))
       true true
  = ([found_line
        (count_occurrences (sanitize (c_str "atcgATCGxatcg"))
           (sanitize (c_str "ATCG"))
           (Z.of_nat (length (sanitize (c_str "atcgATCGxatcg"))))
           (Z.of_nat (length (sanitize (c_str "ATCG")))))], 0).
Proof.
  apply main_reports_occurrences;
    [ right; reflexivity | reflexivity | reflexivity
    | vm_compute; reflexivity
    | vm_compute; split; [discriminate | reflexivity] ].
Defined.

(** X14. The two algorithms are interchangeable for the whole program:
    whatever the files hold, and whether the buffers can be allocated or
    not, a run with [-bf] and a run with [-kr] print the same lines and
    exit with the same status. *)
Theorem main_mode_independent prog d p fs dna_alloc pat_alloc :
  main [prog; "-bf"; d; p]%string fs dna_alloc pat_alloc
  = main [prog; "-kr"; d; p]%string fs dna_alloc pat_alloc.
Proof.
  destruct (dna_alloc && pat_alloc) eqn:Halloc.
  - apply andb_true_iff in Halloc as [-> ->].
    rewrite !main_behaviour by auto. reflexivity.
  - rewrite !main_no_memory by auto. reflexivity.
Qed.

(** X15. The exit status of [main] is 0 or 1, and it is 0 exactly when
    there are four arguments, the algorithm is [-bf] or [-kr], both
    buffers are allocated, both files open, each first line holds fewer
    than [N - 1] bases and the pattern holds at least one. *)
Theorem main_exit_status argv fs dna_alloc pat_alloc :
  (snd (main argv fs dna_alloc pat_alloc) = 0
   \/ snd (main argv fs dna_alloc pat_alloc) = 1)
  /\ (snd (main argv fs dna_alloc pat_alloc) = 0 <->
      length argv = 4%nat
      /\ (nth 1 argv ""%string = "-bf"%string
          \/ nth 1 argv ""%string = "-kr"%string)
      /\ dna_alloc = true /\ pat_alloc = true
      /\ exists dna pat,
           fs (nth 2 argv ""%string) = Some dna
           /\ fs (nth 3 argv ""%string) = Some pat
           /\ Z.of_nat (length (sanitize dna)) < N - 1
           /\ 1 <= Z.of_nat (length (sanitize pat)) < N - 1).
Proof.
  destruct (Nat.eq_dec (length argv) 4) as [Hlen | Hlen].
  2:{ unfold main.
      replace (Z.of_nat (length argv) =? 4) with false
        by (symmetry; apply Z.eqb_neq; lia).
      cbn [negb snd]. split; [right; reflexivity |].
      split; [discriminate | intros [H _]; contradiction]. }
  destruct argv as [| prog [| alg [| d [| p [| x rest]]]]]; try discriminate.
  cbn [nth].
  destruct (string_dec alg "-bf") as [Hbf | Hbf];
    [| destruct (string_dec alg "-kr") as [Hkr | Hkr]].
  3:{ unfold main. cbn [length nth].
      change (negb (Z.of_nat 4 =? 4)) with false. cbv iota.
      apply String.eqb_neq in Hbf, Hkr. rewrite Hbf, Hkr. cbn [negb andb snd].
      apply String.eqb_neq in Hbf, Hkr.
      split; [right; reflexivity |].
      split; [discriminate | intros [_ [[H | H] _]]; contradiction]. }
  all: assert (Halg : alg = "-bf"%string \/ alg = "-kr"%string) by auto.
  all: destruct (dna_alloc && pat_alloc) eqn:Halloc;
    [ apply andb_true_iff in Halloc as [-> ->]
    | rewrite main_no_memory by assumption; cbn [snd];
      split; [right; reflexivity |];
      split; [discriminate |];
      intros [_ [_ [-> [-> _]]]]; discriminate ].
  all: rewrite main_behaviour by assumption.
  all: destruct (fs d) as [dna |];
    [| cbn [snd]; split; [right; reflexivity |];
       split; [discriminate |];
       intros [_ [_ [_ [_ [dna' [pat' [H _]]]]]]]; discriminate ].
  all: destruct (N - 1 <=? Z.of_nat (length (sanitize dna))) eqn:Hbig1;
    [ apply Z.leb_le in Hbig1; cbn [snd]; split; [right; reflexivity |];
      split; [discriminate |];
      intros [_ [_ [_ [_ [dna' [pat' [H [_ [H' _]]]]]]]]];
      injection H as <-; lia
    | apply Z.leb_gt in Hbig1 ].
  all: destruct (fs p) as [pat |];
    [| cbn [snd]; split; [right; reflexivity |];
       split; [discriminate |];
       intros [_ [_ [_ [_ [dna' [pat' [_ [H _]]]]]]]]; discriminate ].
  all: destruct (N - 1 <=? Z.of_nat (length (sanitize pat))) eqn:Hbig2;
    [ apply Z.leb_le in Hbig2; cbn [snd]; split; [right; reflexivity |];
      split; [discriminate |];
      intros [_ [_ [_ [_ [dna' [pat' [_ [H [_ H']]]]]]]]];
      injection H as <-; lia
    | apply Z.leb_gt in Hbig2 ].
  all: destruct (Z.of_nat (length (sanitize pat)) =? 0) eqn:Hempty;
    [ apply Z.eqb_eq in Hempty; cbn [snd]; split; [right; reflexivity |];
      split; [discriminate |];
      intros [_ [_ [_ [_ [dna' [pat' [_ [H [_ H']]]]]]]]];
      injection H as <-; lia
    | apply Z.eqb_neq in Hempty ].
  all: cbn [snd]; split; [left; reflexivity |];
    split; [intros _ | reflexivity];
    repeat split; auto;
    exists dna, pat; repeat split; auto; lia.
Qed.

(** X16. An empty pattern never reaches the scanners: when the DNA file
    is accepted and the first line of the pattern file holds no base,
    [main] prints the error of the empty pattern and exits with status
    1. *)
Theorem main_rejects_empty_pattern prog alg d p fs dna pat :
  alg = "-bf"%string \/ alg = "-kr"%string ->
  fs d = Some dna -> fs p = Some pat ->
  Z.of_nat (length (sanitize dna)) < N - 1 ->
  sanitize pat = [] ->
  main [prog; alg; d; p] fs true true
  = ([("Error: Empty pattern" ++ newline)%string], 1).
Proof.
  intros Halg Hd Hp Hdna Hpat.
  rewrite main_behaviour, Hd, Hp, Hpat by assumption.
  replace (N - 1 <=? Z.of_nat (length (sanitize dna))) with false
    by (symmetry; apply Z.leb_gt; lia).
  reflexivity.
Qed.

Lemma main_rejects_empty_pattern_witness :
  main ["prog"; "-bf"; "dna.txt"; "pat.txt"]%string
       (fun name => if (name =? "dna.txt")%string
                    then Some (c_str "ATCG")
                    else Some (10 :: c_str "ATCG"))
       true true
  = ([("Error: Empty pattern" ++ newline)%string], 1).
Proof.
  apply (main_rejects_empty_pattern _ _ _ _ _ (c_str "ATCG")
           (10 :: c_str "ATCG"));
    [ left; reflexivity | reflexivity | reflexivity
    | vm_compute; reflexivity | reflexivity ].
Defined.

(** X17. The capacity of the program: a DNA file whose first line holds
    [N - 1] bases or more is rejected, with the warning of the truncation
    and the error of the size, whatever the pattern file holds. *)
Theorem main_rejects_large_sequence prog alg d p fs dna :
  alg = "-bf"%string \/ alg = "-kr"%string ->
  fs d = Some dna ->
  N - 1 <= Z.of_nat (length (sanitize dna)) ->
  main [prog; alg; d; p] fs true true
  = (truncation_warning
       ++ [("Error: DNA sequence too large" ++ newline)%string], 1).
Proof.
  intros Halg Hd Hdna.
  rewrite main_behaviour, Hd by assumption.
  replace (N - 1 <=? Z.of_nat (length (sanitize dna))) with true
    by (symmetry; apply Z.leb_le; lia).
  reflexivity.
Qed.

Lemma main_rejects_large_sequence_witness :
  main ["prog"; "-bf"; "dna.txt"; "pat.txt"]%string
       (fun _ => Some (repeat 65 (Z.to_nat (N - 1)))) true true
  = (truncation_warning
       ++ [("Error: DNA sequence too large" ++ newline)%string], 1).
Proof.
  apply (main_rejects_large_sequence _ _ _ _ _ (repeat 65 (Z.to_nat (N - 1))));
    [left; reflexivity | reflexivity |].
  rewrite sanitize_fixpoint, repeat_length.
  - rewrite Z2Nat.id; unfold N; lia.
  - apply Forall_forall. intros x Hx. apply repeat_spec in Hx.
    left. exact Hx.
Defined.

End Main.
